(** * Agent Mode instruction router (UI-main/src/components/AgentMode.tsx)

    A shallow embedding of the routing logic of [handleGoalSubmit] and of
    its helpers [splitInstructions] and [splitRelatedActions], followed by
    the properties of the router that the specification lists.

    Strings.  A JavaScript string is a sequence of UTF-16 code units.  The
    embedding uses [string], whose characters are the code units 0..255
    (the Latin-1 range); text with code units above 255 is outside the
    model.  On this range [toLowerCase] is closed, the white space of
    [trim] and of the class \s is {9..13, 32, 160}, the line terminators
    excluded by [.] are {10, 13}, and \w is [A-Za-z0-9_]. *)

From Stdlib Require Import String Ascii List Bool Arith Lia DecimalString.
Import ListNotations.
Open Scope string_scope.
Open Scope list_scope.
Open Scope nat_scope.

(** ** JavaScript string primitives *)

Module JS.

Definition code (c : ascii) : nat := nat_of_ascii c.

Definition between (lo hi n : nat) : bool := (lo <=? n) && (n <=? hi).

Definition isWhiteSpace (c : ascii) : bool :=
  between 9 13 (code c) || (code c =? 32) || (code c =? 160).

Definition isLineTerminator (c : ascii) : bool :=
  (code c =? 10) || (code c =? 13).

Definition isWordChar (c : ascii) : bool :=
  between 97 122 (code c) || between 65 90 (code c)
  || between 48 57 (code c) || (code c =? 95).

(** [String.prototype.toLowerCase] on one code unit: A-Z, and the Latin-1
    capitals 192..222 other than the multiplication sign 215. *)
Definition toLowerChar (c : ascii) : ascii :=
  let n := code c in
  if between 65 90 n || (between 192 222 n && negb (n =? 215))
  then ascii_of_nat (n + 32) else c.

Fixpoint toLowerCase (s : string) : string :=
  match s with
  | EmptyString => EmptyString
  | String c r => String (toLowerChar c) (toLowerCase r)
  end.

(** Canonicalize of the ignoreCase flag (no unicode flag): the upper case
    of the code unit, never mapping a unit above 127 to one below 128.
    Every pattern character of this program is below 128, so on its letters
    only a-z and A-Z are identified; the other units are left alone, which
    keeps them distinct from every pattern character. *)
Definition canonicalize (c : ascii) : ascii :=
  let n := code c in
  if between 97 122 n then ascii_of_nat (n - 32) else c.

Definition charEq (ignoreCase : bool) (p c : ascii) : bool :=
  if ignoreCase then Ascii.eqb (canonicalize p) (canonicalize c)
  else Ascii.eqb p c.

Fixpoint trimStart (s : string) : string :=
  match s with
  | EmptyString => EmptyString
  | String c r => if isWhiteSpace c then trimStart r else s
  end.

Fixpoint trimEnd (s : string) : string :=
  match s with
  | EmptyString => EmptyString
  | String c r =>
      match trimEnd r with
      | EmptyString => if isWhiteSpace c then EmptyString else String c EmptyString
      | r' => String c r'
      end
  end.

Definition trim (s : string) : string := trimEnd (trimStart s).

(** [s.includes(t)] *)
Fixpoint includes (s t : string) : bool :=
  prefix t s ||
  match s with
  | EmptyString => false
  | String _ r => includes r t
  end.

(** [xs.join(sep)] *)
Fixpoint join (sep : string) (xs : list string) : string :=
  match xs with
  | [] => EmptyString
  | [x] => x
  | x :: r => (x ++ sep ++ join sep r)%string
  end.

(** Truthiness of a string: the empty string is the only falsy one. *)
Definition truthy (s : string) : bool := negb (String.eqb s EmptyString).

(** [a || b] on strings. *)
Definition orElse (a b : string) : string := if truthy a then a else b.

Definition hd_char (s : string) : option ascii :=
  match s with
  | EmptyString => None
  | String c _ => Some c
  end.

(** *** Regular expressions

    The fragment of the regular-expression language that the program
    uses: literals, character classes, a greedy star over a class, the
    word boundary, sequence and ordered alternation. *)

Inductive regex : Type :=
| Lit (s : string)
| Cls (p : ascii -> bool)
| StarCls (p : ascii -> bool)
| WordB
| Seq (r1 r2 : regex)
| Alt (r1 r2 : regex).

Definition isWordOpt (o : option ascii) : bool :=
  match o with
  | Some c => isWordChar c
  | None => false
  end.

Fixpoint litMatch (ic : bool) (l : string) (prev : option ascii) (s : string)
  : option (option ascii * string) :=
  match l with
  | EmptyString => Some (prev, s)
  | String p l' =>
      match s with
      | EmptyString => None
      | String c s' => if charEq ic p c then litMatch ic l' (Some c) s' else None
      end
  end.

Fixpoint starMatch (p : ascii -> bool) (k : option ascii -> string -> option string)
    (prev : option ascii) (s : string) : option string :=
  match s with
  | String c s' =>
      if p c then
        match starMatch p k (Some c) s' with
        | Some r => Some r
        | None => k prev s
        end
      else k prev s
  | EmptyString => k prev s
  end.

(** Backtracking matcher anchored at the current position. [prev] is the
    code unit before that position, [s] the text from it on; the
    continuation receives the position after the match.  The result is the
    text left after the first match in the priority order of the
    alternatives. *)
Fixpoint matchAt (ic : bool) (r : regex) (prev : option ascii) (s : string)
    (k : option ascii -> string -> option string) : option string :=
  match r with
  | Lit l =>
      match litMatch ic l prev s with
      | Some (prev', s') => k prev' s'
      | None => None
      end
  | Cls p =>
      match s with
      | String c s' => if p c then k (Some c) s' else None
      | EmptyString => None
      end
  | StarCls p => starMatch p k prev s
  | WordB => if xorb (isWordOpt prev) (isWordOpt (hd_char s)) then k prev s else None
  | Seq r1 r2 => matchAt ic r1 prev s (fun prev' s' => matchAt ic r2 prev' s' k)
  | Alt r1 r2 =>
      match matchAt ic r1 prev s k with
      | Some x => Some x
      | None => matchAt ic r2 prev s k
      end
  end.

Definition execAt (ic : bool) (r : regex) (prev : option ascii) (s : string)
  : option string :=
  matchAt ic r prev s (fun _ rest => Some rest).

(** [re.test(s)]: a match at some position of [s], the end included. *)
Fixpoint testFrom (ic : bool) (r : regex) (prev : option ascii) (s : string) : bool :=
  match execAt ic r prev s with
  | Some _ => true
  | None =>
      match s with
      | EmptyString => false
      | String c s' => testFrom ic r (Some c) s'
      end
  end.

Definition test (ic : bool) (r : regex) (s : string) : bool := testFrom ic r None s.

(** [s.split(re)] for a pattern without capture groups.  [cur] is the text
    since the end of the last separator, [skip] the number of code units of
    a separator that are still to be passed over.  An empty match splits
    only when [cur] is not empty, as in the language definition. *)
Fixpoint splitFrom (ic : bool) (r : regex) (prev : option ascii) (skip : nat)
    (cur : string) (s : string) : list string :=
  match s with
  | EmptyString => [cur]
  | String c s' =>
      match skip with
      | S n => splitFrom ic r (Some c) n cur s'
      | O =>
          match execAt ic r prev s with
          | None => splitFrom ic r (Some c) 0 (cur ++ String c EmptyString) s'
          | Some rest =>
              match String.length s - String.length rest with
              | O =>
                  if truthy cur
                  then cur :: splitFrom ic r (Some c) 0 (String c EmptyString) s'
                  else splitFrom ic r (Some c) 0 (cur ++ String c EmptyString) s'
              | S n => cur :: splitFrom ic r (Some c) n EmptyString s'
              end
          end
      end
  end.

Definition split (ic : bool) (r : regex) (s : string) : list string :=
  match s with
  | EmptyString =>
      match execAt ic r None s with
      | Some _ => []
      | None => [s]
      end
  | _ => splitFrom ic r None 0 EmptyString s
  end.

(** [s.replace(re, by)] with the global flag, for a pattern that matches
    no empty text. *)
Fixpoint replaceFrom (ic : bool) (r : regex) (by_ : string) (prev : option ascii)
    (skip : nat) (s : string) : string :=
  match s with
  | EmptyString => EmptyString
  | String c s' =>
      match skip with
      | S n => replaceFrom ic r by_ (Some c) n s'
      | O =>
          match execAt ic r prev s with
          | None => String c (replaceFrom ic r by_ (Some c) 0 s')
          | Some rest =>
              match String.length s - String.length rest with
              | O => String c (replaceFrom ic r by_ (Some c) 0 s')
              | S n => (by_ ++ replaceFrom ic r by_ (Some c) n s')%string
              end
          end
      end
  end.

Definition replaceAll (ic : bool) (r : regex) (by_ : string) (s : string) : string :=
  replaceFrom ic r by_ None 0 s.

End JS.

Import JS.

Coercion Lit : string >-> regex.
Notation "a >> b" := (Seq a b) (at level 41, right associativity).
Notation "a <|> b" := (Alt a b) (at level 51, left associativity).

Definition any : regex := StarCls (fun c => negb (isLineTerminator c)).
Definition ws : regex := Cls isWhiteSpace.
Definition ws_plus : regex := Cls isWhiteSpace >> StarCls isWhiteSpace.
Definition word_plus : regex := Cls isWordChar >> StarCls isWordChar.

Definition LF : string := String (ascii_of_nat 10) EmptyString.
Definition CR : string := String (ascii_of_nat 13) EmptyString.
Definition DQ : string := String (ascii_of_nat 34) EmptyString.

(** ** Instruction segmentation *)

(** /\band\b|\bthen\b|\n|\r|\r\n|\.|;|,|\|\||\|\s/i *)
Definition separators : regex :=
  WordB >> "and" >> WordB <|> WordB >> "then" >> WordB <|> LF <|> CR
  <|> CR >> LF <|> "." <|> ";" <|> "," <|> "||" <|> "|" >> ws.

(** The fragments of the goal: split, then trim each piece. *)
Definition fragments (input : string) : list string :=
  map trim (split true separators input).

Definition longEnough (instr : string) : bool :=
  (0 <? String.length instr) && (3 <? String.length instr).

(** The loop over several instructions pushes each one unchanged in both
    of its branches. *)
Fixpoint refine (instructions : list string) : list string :=
  match instructions with
  | [] => []
  | instruction :: rest =>
      (if test true ("page" <|> "image" <|> "code" <|> "video" <|> "text") instruction
       then [instruction] else [instruction]) ++ refine rest
  end.

Definition splitInstructions (input : string) : list string :=
  let instructions := filter longEnough (fragments input) in
  if List.length instructions =? 1 then instructions
  else refine instructions.

(** /\band\b|\bthen\b|;/i *)
Definition relatedSeparators : regex :=
  WordB >> "and" >> WordB <|> WordB >> "then" >> WordB <|> ";".

Definition splitRelatedActions (instruction : string) : list string :=
  filter (fun instr => 0 <? String.length instr)
         (map trim (split true relatedSeparators instruction)).

(** ** Tools and tool inference *)

Inductive Tool : Type :=
| video_summarizer
| image_insights
| code_assistant
| ai_powered_search
| impact_analyzer
| test_support.

Definition Tool_eqb (a b : Tool) : bool :=
  match a, b with
  | video_summarizer, video_summarizer
  | image_insights, image_insights
  | code_assistant, code_assistant
  | ai_powered_search, ai_powered_search
  | impact_analyzer, impact_analyzer
  | test_support, test_support => true
  | _, _ => false
  end.

(** [tools.includes(t)] *)
Definition toolsInclude (tools : list Tool) (t : Tool) : bool :=
  existsb (Tool_eqb t) tools.

Definition push {A : Type} (xs : list A) (x : A) : list A := xs ++ [x].

Module Keywords.

(** /video|summarize.*video|transcribe|video.*summarize/ *)
Definition video : regex :=
  "video" <|> "summarize" >> any >> "video" <|> "transcribe"
  <|> "video" >> any >> "summarize".

(** /image|chart|diagram|visual|image.*summarize|summarize.*image|analyze.*image|image.*analyze/ *)
Definition image : regex :=
  "image" <|> "chart" <|> "diagram" <|> "visual"
  <|> "image" >> any >> "summarize" <|> "summarize" >> any >> "image"
  <|> "analyze" >> any >> "image" <|> "image" >> any >> "analyze".

(** /convert.*language|language.*convert|debug|refactor|fix|bug|error|optimize|performance|documentation|docs|comment|dead code|unused|logging|log|code.*convert|convert.*code/ *)
Definition code : regex :=
  "convert" >> any >> "language" <|> "language" >> any >> "convert"
  <|> "debug" <|> "refactor" <|> "fix" <|> "bug" <|> "error" <|> "optimize"
  <|> "performance" <|> "documentation" <|> "docs" <|> "comment"
  <|> "dead code" <|> "unused" <|> "logging" <|> "log"
  <|> "code" >> any >> "convert" <|> "convert" >> any >> "code".

(** /text|summarize.*text|text.*summarize|summarize.*page|page.*summarize|summarize/ *)
Definition text : regex :=
  "text" <|> "summarize" >> any >> "text" <|> "text" >> any >> "summarize"
  <|> "summarize" >> any >> "page" <|> "page" >> any >> "summarize"
  <|> "summarize".

(** /impact|change|difference|diff/ *)
Definition impact : regex := "impact" <|> "change" <|> "difference" <|> "diff".

(** /test|qa|test case|unit test/ *)
Definition testing : regex := "test" <|> "qa" <|> "test case" <|> "unit test".

(** Tier 2: /image|chart|diagram|visual/ *)
Definition imageOverride : regex := "image" <|> "chart" <|> "diagram" <|> "visual".

(** Tier 2: /convert|debug|refactor|fix|bug|error|optimize|performance|documentation|docs|comment|dead code|unused|logging|log|code/ *)
Definition codeOverride : regex :=
  "convert" <|> "debug" <|> "refactor" <|> "fix" <|> "bug" <|> "error"
  <|> "optimize" <|> "performance" <|> "documentation" <|> "docs"
  <|> "comment" <|> "dead code" <|> "unused" <|> "logging" <|> "log" <|> "code".

(** Tier 2: /video|summarize.*video|transcribe/ *)
Definition videoOverride : regex :=
  "video" <|> "summarize" >> any >> "video" <|> "transcribe".

(** Two-page path: /impact|compare|difference|diff/i *)
Definition impactGate : regex := "impact" <|> "compare" <|> "difference" <|> "diff".

(** Two-page path: /test|qa|test case|unit test/i *)
Definition testGate : regex := "test" <|> "qa" <|> "test case" <|> "unit test".

End Keywords.

(** The body of the loop that analyses one instruction. *)
Definition inferTools (instruction : string) : list Tool :=
  let lowerInstruction := toLowerCase instruction in
  let tools := [] in
  let tools := if test false Keywords.video lowerInstruction
               then push tools video_summarizer else tools in
  let tools := if test false Keywords.image lowerInstruction
               then push tools image_insights else tools in
  let tools := if test false Keywords.code lowerInstruction
               then push tools code_assistant else tools in
  let tools := if test false Keywords.text lowerInstruction
               then push tools ai_powered_search else tools in
  let tools := if test false Keywords.impact lowerInstruction
               then push tools impact_analyzer else tools in
  let tools := if test false Keywords.testing lowerInstruction
               then push tools test_support else tools in
  if List.length tools =? 0 then push tools ai_powered_search else tools.

Record InstructionTools : Type := mkIT {
  it_instruction : string;
  it_tools : list Tool
}.

Definition analyse (instructions : list string) : list InstructionTools :=
  map (fun instruction => mkIT instruction (inferTools instruction)) instructions.

(** ** Content types *)

Record PageWithType : Type := mkPage {
  title : string;
  content_type : string
}.

(** [(pageTypes.find(p => p.title === page)?.content_type) || 'text'];
    an absent content type is the empty string. *)
Definition contentTypeOf (pageTypes : list PageWithType) (page : string) : string :=
  match find (fun p => String.eqb (title p) page) pageTypes with
  | Some p => orElse (content_type p) "text"
  | None => "text"
  end.

(** [pageContentTypes.get(page) || 'text'], the map holding
    [contentTypeOf] for every selected page. *)
Definition pageTypeOf (pageTypes : list PageWithType) (page : string) : string :=
  orElse (contentTypeOf pageTypes page) "text".

(** ** Page-to-instruction matching *)

Inductive Tier : Type :=
| ExplicitMention
| ContentType
| FirstAvailable
| Default.

Record Assignment : Type := mkAssignment {
  page : string;
  instruction : string;
  tool : Tool
}.

(** The used-instruction set, a set of strings. *)
Definition has (used : list string) (instruction : string) : bool :=
  existsb (String.eqb instruction) used.

Definition add (used : list string) (instruction : string) : list string :=
  if has used instruction then used else push used instruction.

(** The instruction names the page: its lower-cased text contains the
    lower-cased title, or the title with each run of white space replaced
    by an underscore or by a hyphen. *)
Definition mentions (instruction page : string) : bool :=
  let lowerInstruction := toLowerCase instruction in
  let lowerPageName := toLowerCase page in
  includes lowerInstruction lowerPageName
  || includes lowerInstruction (replaceAll false ws_plus "_" lowerPageName)
  || includes lowerInstruction (replaceAll false ws_plus "-" lowerPageName).

(** The content-type priority chain of tiers 1 and 2. *)
Definition priorityTool (pageType : string) (tools : list Tool) : Tool :=
  let bestTool := ai_powered_search in
  if String.eqb pageType "video" && toolsInclude tools video_summarizer
  then video_summarizer
  else if String.eqb pageType "image" && toolsInclude tools image_insights
  then image_insights
  else if String.eqb pageType "code" && toolsInclude tools code_assistant
  then code_assistant
  else if String.eqb pageType "text" && toolsInclude tools ai_powered_search
  then ai_powered_search
  else match tools with
       | t :: _ => t
       | [] => bestTool
       end.

(** The additional keyword matching of tier 2. *)
Definition keywordOverride (pageType lowerInstruction : string) (bestTool : Tool) : Tool :=
  if String.eqb pageType "image" && test false Keywords.imageOverride lowerInstruction
  then image_insights
  else if String.eqb pageType "code" && test false Keywords.codeOverride lowerInstruction
  then code_assistant
  else if String.eqb pageType "video" && test false Keywords.videoOverride lowerInstruction
  then video_summarizer
  else bestTool.

(** First pass: the first instruction that names the page.  The used set
    is not consulted. *)
Fixpoint explicitPass (page pageType : string) (its : list InstructionTools)
  : option (string * Tool) :=
  match its with
  | [] => None
  | it :: rest =>
      if mentions (it_instruction it) page
      then Some (it_instruction it, priorityTool pageType (it_tools it))
      else explicitPass page pageType rest
  end.

(** Second pass: the first instruction not yet used. *)
Fixpoint contentPass (pageType : string) (used : list string)
    (its : list InstructionTools) : option (string * Tool) :=
  match its with
  | [] => None
  | it :: rest =>
      if has used (it_instruction it) then contentPass pageType used rest
      else Some (it_instruction it,
                 keywordOverride pageType (toLowerCase (it_instruction it))
                   (priorityTool pageType (it_tools it)))
  end.

(** Third pass: the first instruction not yet used, with its first tool. *)
Fixpoint availablePass (used : list string) (its : list InstructionTools)
  : option (string * Tool) :=
  match its with
  | [] => None
  | it :: rest =>
      if has used (it_instruction it) then availablePass used rest
      else Some (it_instruction it,
                 match it_tools it with
                 | t :: _ => t
                 | [] => ai_powered_search
                 end)
  end.

(** [matchedInstruction] and [matchedTool] are assigned together; the
    tier that assigned them last is kept beside them. *)
Definition Matched : Type := option (string * Tool * Tier).

(** [!matchedInstruction]: null, or the empty string. *)
Definition unmatched (m : Matched) : bool :=
  match m with
  | None => true
  | Some (i, _, _) => negb (truthy i)
  end.

Definition record (tier : Tier) (found : option (string * Tool))
    (m : Matched) (used : list string) : Matched * list string :=
  match found with
  | Some (i, t) => (Some (i, t, tier), add used i)
  | None => (m, used)
  end.

(** [instructions[0] || 'Analyze this content'] *)
Definition defaultInstruction (instructions : list string) : string :=
  match instructions with
  | i :: _ => orElse i "Analyze this content"
  | [] => "Analyze this content"
  end.

(** One iteration of the loop over the selected pages. *)
Definition matchPage (instructions : list string) (its : list InstructionTools)
    (pageTypes : list PageWithType) (used : list string) (page : string)
  : (Assignment * Tier) * list string :=
  let pageType := pageTypeOf pageTypes page in
  let '(m, used) := record ExplicitMention (explicitPass page pageType its) None used in
  let '(m, used) :=
    if unmatched m then record ContentType (contentPass pageType used its) m used
    else (m, used) in
  let '(m, used) :=
    if unmatched m then record FirstAvailable (availablePass used its) m used
    else (m, used) in
  let m :=
    if unmatched m then Some (defaultInstruction instructions, ai_powered_search, Default)
    else m in
  match m with
  | Some (i, t, tier) => (mkAssignment page i t, tier, used)
  | None => (mkAssignment page EmptyString ai_powered_search, Default, used) (* not reached *)
  end.

Fixpoint matchPages (instructions : list string) (its : list InstructionTools)
    (pageTypes : list PageWithType) (used : list string) (pages : list string)
  : list (Assignment * Tier) :=
  match pages with
  | [] => []
  | page :: rest =>
      let '(a, used') := matchPage instructions its pageTypes used page in
      a :: matchPages instructions its pageTypes used' rest
  end.

(** The assignments with the tier that resolved each one. *)
Definition route (pageTypes : list PageWithType) (selectedPages : list string)
    (instructions : list string) : list (Assignment * Tier) :=
  matchPages instructions (analyse instructions) pageTypes [] selectedPages.

(** [pageInstructions] *)
Definition assign (pageTypes : list PageWithType) (selectedPages : list string)
    (instructions : list string) : list Assignment :=
  map fst (route pageTypes selectedPages instructions).

(** ** Collaborators

    The handler reaches its collaborators through [apiService].  A run is
    modelled with the list of the calls it made, in order, each with the
    fate of its promise.  Every collaborator answers from what happened
    before and from its arguments; [None] is a rejected promise. *)

Inductive Call : Type :=
| Search (space_key : string) (page_titles : list string) (query : string)
| CodeAssistant (space_key page_title instruction : string)
| GetImages (space_key page_title : string)
| ImageSummary (space_key page_title image_url : string)
| VideoSummarizer (space_key page_title : string)
| ImpactAnalyzer (space_key old_page_title new_page_title question : string)
| TestSupport (space_key code_page_title test_input_page_title question : string).

(** Absent optional fields are the empty string or the empty list. *)
Record CodeResult : Type := mkCode {
  original_code : string;
  modified_code : string;
  converted_code : string
}.

Record VideoResult : Type := mkVideo {
  summary : string;
  quotes : list string;
  timestamps : list string
}.

Record Event : Type := mkEvent {
  call : Call;
  resolved : bool
}.

Definition isSome {A : Type} (o : option A) : bool :=
  match o with
  | Some _ => true
  | None => false
  end.

(** A computation of the [try] block: from the events so far to a value,
    or to a thrown exception ([None]), and the events after. *)
Definition M (A : Type) : Type := list Event -> option A * list Event.

Definition ret {A : Type} (a : A) : M A := fun events => (Some a, events).

Definition throw {A : Type} : M A := fun events => (None, events).

Definition bind {A B : Type} (m : M A) (f : A -> M B) : M B :=
  fun events =>
    match m events with
    | (Some a, events') => f a events'
    | (None, events') => (None, events')
    end.

Notation "x <- c1 ;; c2" := (bind c1 (fun x => c2))
  (at level 61, c1 at next level, right associativity).
Notation "' pat <- c1 ;; c2" := (bind c1 (fun x => match x with pat => c2 end))
  (at level 61, pat pattern, c1 at next level, right associativity).

(** [await] of one call. *)
Definition invoke {A : Type} (c : Call) (answer : list Event -> option A) : M A :=
  fun events =>
    let r := answer events in
    (r, push events (mkEvent c (isSome r))).

(** [await Promise.all(xs.map(f))]: every call is started, in order, and
    the whole rejects when one of them does. *)
Fixpoint all {A : Type} (ms : list (M A)) : M (list A) :=
  fun events =>
    match ms with
    | [] => (Some [], events)
    | m :: rest =>
        let (r, events1) := m events in
        let (rs, events2) := all rest events1 in
        (match r, rs with
         | Some a, Some l => Some (a :: l)
         | _, _ => None
         end, events2)
    end.

Definition decimal (n : nat) : string := NilEmpty.string_of_uint (Nat.to_uint n).

(** [xs.map((x, index) => `${index + 1}. ${x}`)] *)
Fixpoint numbered (index : nat) (xs : list string) : list string :=
  match xs with
  | [] => []
  | x :: rest => (decimal (index + 1) ++ ". " ++ x)%string :: numbered (S index) rest
  end.

(** [summaries.map((s, i) => `Image ${i + 1}: ${s.summary}`)] *)
Fixpoint imageLines (i : nat) (summaries : list string) : list string :=
  match summaries with
  | [] => []
  | s :: rest => ("Image " ++ decimal (i + 1) ++ ": " ++ s)%string :: imageLines (S i) rest
  end.

(** Property names that every object inherits from [Object.prototype]:
    on a fresh object literal [obj[name]] is then a function, or the
    prototype itself, and has no [push]. *)
Definition inherited (name : string) : bool :=
  existsb (String.eqb name)
    ["constructor"; "__defineGetter__"; "__defineSetter__"; "hasOwnProperty";
     "__lookupGetter__"; "__lookupSetter__"; "isPrototypeOf";
     "propertyIsEnumerable"; "toString"; "valueOf"; "__proto__";
     "toLocaleString"].

(** What the component imports or reads from its surroundings: the
    formatters of utils/toolOutputFormatters, and the text of
    [new Date().toLocaleString()] at the end of the run. *)
Record Externals : Type := mkExternals {
  formatAIPoweredSearchOutput : string -> string;
  formatCodeAssistantOutput : list string -> string;
  formatImageInsightsOutput : list (string * string) -> string;
  formatVideoSummarizerOutput : string -> string -> list string -> list string -> string;
  localeNow : string
}.

Section Orchestration.

(** The response object of the impact analyzer; its fields are only
    rendered. *)
Variable ImpactResult : Type.

Variable ext : Externals.

Record Api : Type := mkApi {
  search : list Event -> string -> list string -> string -> option string;
  codeAssistant : list Event -> string -> string -> string -> option CodeResult;
  getImages : list Event -> string -> string -> option (list string);
  imageSummary : list Event -> string -> string -> string -> option string;
  videoSummarizer : list Event -> string -> string -> option VideoResult;
  impactAnalyzer : list Event -> string -> string -> string -> string -> option ImpactResult;
  testSupport : list Event -> string -> string -> string -> string -> option string
}.

Variable api : Api.

Definition callSearch (space : string) (pages : list string) (query : string) : M string :=
  invoke (Search space pages query) (fun events => search api events space pages query).

Definition callCodeAssistant (space page instr : string) : M CodeResult :=
  invoke (CodeAssistant space page instr)
         (fun events => codeAssistant api events space page instr).

Definition callGetImages (space page : string) : M (list string) :=
  invoke (GetImages space page) (fun events => getImages api events space page).

Definition callImageSummary (space page url : string) : M string :=
  invoke (ImageSummary space page url)
         (fun events => imageSummary api events space page url).

Definition callVideoSummarizer (space page : string) : M VideoResult :=
  invoke (VideoSummarizer space page)
         (fun events => videoSummarizer api events space page).

Definition callImpactAnalyzer (space oldPage newPage question : string) : M ImpactResult :=
  invoke (ImpactAnalyzer space oldPage newPage question)
         (fun events => impactAnalyzer api events space oldPage newPage question).

Definition callTestSupport (space codePage testInputPage question : string) : M string :=
  invoke (TestSupport space codePage testInputPage question)
         (fun events => testSupport api events space codePage testInputPage question).

(** *** Dispatch of one assignment *)

Record PageResult : Type := mkResult {
  r_instruction : string;
  r_tool : Tool;
  outputs : list string;
  formattedOutput : string
}.

(** The three audit trails, appended to together. *)
Record Audit : Type := mkAudit {
  toolsTriggered : list string;
  whyUsed : list string;
  howDerived : list string
}.

Definition note (a : Audit) (label why how : string) : Audit :=
  mkAudit (push (toolsTriggered a) label) (push (whyUsed a) why) (push (howDerived a) how).

(** The prompt sent for one related action; [actionPromptMap]. *)
Definition promptFor (detectedCode action : string) : string :=
  if test true ("optimize" <|> "performance") action then
    "Optimize the following code for performance without changing its functionality, return only the updated code:"
    ++ LF ++ LF ++ detectedCode
  else if test true ("documentation" <|> "docs" <|> "comment") action then
    "Generate inline documentation and function-level comments for the following code, return only the updated code by commenting the each line of the code.:"
    ++ LF ++ LF ++ detectedCode
  else if test true ("refactor" <|> "structure") action then
    "Refactor the following code to improve structure, readability, and modularity, return only the updated code:"
    ++ LF ++ LF ++ detectedCode
  else if test true ("dead code" <|> "unused") action then
    "Analyze the following code for any unsued code or dead code, return only the updated code by removing the dead code:"
    ++ LF ++ LF ++ detectedCode
  else if test true ("logging" <|> "log") action then
    "Add appropriate logging statements to the following code for better traceability and debugging. Return only the updated code:"
    ++ LF ++ LF ++ detectedCode
  else if test true ("summarize" <|> "summary") action then
    "Summarize the following code in clear and concise language:"
    ++ LF ++ LF ++ detectedCode
  else action.

Record CodeOutputs : Type := mkCodeOutputs {
  lastOutput : string;
  aiActionOutput : string;
  conversionOutput : string;
  modificationOutput : string
}.

(** The loop over the related actions of a code instruction. *)
Fixpoint runActions (space page detectedCode : string) (actions : list string)
    (o : CodeOutputs) : M CodeOutputs :=
  match actions with
  | [] => ret o
  | action :: rest =>
      result <- callCodeAssistant space page (promptFor detectedCode action) ;;
      let output :=
        orElse (modified_code result)
          (orElse (converted_code result)
             (orElse (original_code result) "AI action completed successfully.")) in
      let o :=
        if test true ("optimize" <|> "refactor" <|> "dead code" <|> "docs"
                      <|> "logging" <|> "summarize") action
        then mkCodeOutputs output output (conversionOutput o) (modificationOutput o)
        else if test true ("convert" <|> "language" <|> "to" >> ws_plus >> word_plus) action
        then mkCodeOutputs output (aiActionOutput o) output (modificationOutput o)
        else mkCodeOutputs output (aiActionOutput o) (conversionOutput o) output in
      runActions space page detectedCode rest o
  end.

Definition codeOutputs (o : CodeOutputs) : list string :=
  let outputs := [] in
  let outputs := if truthy (aiActionOutput o)
                 then push outputs ("AI Action Output:" ++ LF ++ aiActionOutput o)%string
                 else outputs in
  let outputs := if truthy (conversionOutput o)
                 then push outputs ("Target Language Conversion Output:" ++ LF ++ conversionOutput o)%string
                 else outputs in
  let outputs := if truthy (modificationOutput o)
                 then push outputs ("Modification Output:" ++ LF ++ modificationOutput o)%string
                 else outputs in
  if negb (truthy (aiActionOutput o)) && negb (truthy (conversionOutput o))
     && negb (truthy (modificationOutput o)) && truthy (lastOutput o)
  then push outputs ("Processed Code:" ++ LF ++ lastOutput o)%string
  else outputs.

Definition viaSearch (space : string) (a : Assignment) (audit : Audit) (why how : string)
  : M (PageResult * Audit) :=
  response <- callSearch space [page a] (instruction a) ;;
  ret (mkResult (instruction a) (tool a) [response] (formatAIPoweredSearchOutput ext response),
       note audit "AI Powered Search" why how).

(** The body of the loop over [pageInstructions], up to the update of
    [pageResults]. *)
Definition dispatch (space : string) (a : Assignment) (audit : Audit)
  : M (PageResult * Audit) :=
  match tool a with
  | code_assistant =>
      let relatedActions := splitRelatedActions (instruction a) in
      initialResult <- callCodeAssistant space (page a) EmptyString ;;
      let detectedCode := orElse (original_code initialResult) EmptyString in
      o <- runActions space (page a) detectedCode relatedActions
             (mkCodeOutputs EmptyString EmptyString EmptyString EmptyString) ;;
      let outputs := codeOutputs o in
      ret (mkResult (instruction a) (tool a) outputs (formatCodeAssistantOutput ext outputs),
           note audit "Code Assistant"
             ("Code Assistant was used to " ++ toLowerCase (instruction a)
              ++ " for the code page " ++ DQ ++ page a ++ DQ ++ ".")
             "The code was processed using AI-powered analysis and transformation techniques.")
  | image_insights =>
      images <- callGetImages space (page a) ;;
      output <-
        (if 0 <? List.length images then
           summaries <- all (map (callImageSummary space (page a)) images) ;;
           ret (join (LF ++ LF) (imageLines 0 summaries))
         else ret "No images found on this page.") ;;
      ret (mkResult (instruction a) (tool a) [output]
             (formatImageInsightsOutput ext [(page a, output)]),
           note audit "Image Insights"
             ("Image Insights was used to analyze and summarize the images on page "
              ++ DQ ++ page a ++ DQ ++ ".")
             "The images were processed using computer vision and AI analysis to extract meaningful insights and descriptions.")
  | ai_powered_search =>
      viaSearch space a audit
        ("AI Powered Search was used to analyze and summarize the content on page "
         ++ DQ ++ page a ++ DQ ++ ".")
        "The content was processed using natural language processing to extract key information and provide comprehensive summaries."
  | video_summarizer =>
      res <- callVideoSummarizer space (page a) ;;
      let summaryText := orElse (summary res) "No summary available." in
      let quotesText :=
        if 0 <? List.length (quotes res)
        then (LF ++ LF ++ "Key Quotes:" ++ LF
              ++ join LF (map (fun quote => "- " ++ DQ ++ quote ++ DQ) (quotes res)))%string
        else EmptyString in
      let timestampsText :=
        if 0 <? List.length (timestamps res)
        then (LF ++ LF ++ "Timestamps:" ++ LF
              ++ join LF (map (fun ts => "- " ++ ts) (timestamps res)))%string
        else EmptyString in
      let fullOutput := (summaryText ++ quotesText ++ timestampsText)%string in
      ret (mkResult (instruction a) (tool a) [fullOutput]
             (formatVideoSummarizerOutput ext (page a) (summary res) (timestamps res) (quotes res)),
           note audit "Video Summarizer"
             ("Video Summarizer was used to analyze and summarize the video content on page "
              ++ DQ ++ page a ++ DQ ++ ".")
             "The video was processed using AI-powered analysis to extract key moments, timestamps, and comprehensive summaries.")
  | impact_analyzer | test_support =>
      viaSearch space a audit
        ("AI Powered Search was used as a fallback to analyze the content on page "
         ++ DQ ++ page a ++ DQ ++ ".")
        "The content was processed using general AI analysis to provide relevant information."
  end.

(** [pageResults], an object used as a map from page to its results: the
    keys in insertion order.  (The engine enumerates keys that are array
    indices first; the model keeps insertion order for them too.) *)
Definition PageResults : Type := list (string * list PageResult).

Fixpoint pushResult (pageResults : PageResults) (p : string) (r : PageResult) : PageResults :=
  match pageResults with
  | [] => [(p, [r])]
  | (q, rs) :: rest =>
      if String.eqb q p then (q, push rs r) :: rest
      else (q, rs) :: pushResult rest p r
  end.

(** The loop over [pageInstructions].  For a page named like an inherited
    property, [pageResults[page]] is not an array and the push throws. *)
Fixpoint dispatchAll (space : string) (assignments : list Assignment)
    (pageResults : PageResults) (audit : Audit) : M (PageResults * Audit) :=
  match assignments with
  | [] => ret (pageResults, audit)
  | a :: rest =>
      '(r, audit) <- dispatch space a audit ;;
      if inherited (page a) then throw
      else dispatchAll space rest (pushResult pageResults (page a) r) audit
  end.

(** *** The two-page tools *)

Inductive ResultEntry : Type :=
| ImpactEntry (oldPage newPage : string) (res : ImpactResult)
| TestEntry (codePage testInputPage : string) (test_strategy : string)
| PageEntry (page : string) (results : list PageResult).

Definition twoPageTools (space goal : string) (selectedPages instructions : list string)
    (audit : Audit) : M (option ResultEntry * option ResultEntry * Audit) :=
  match selectedPages with
  | [first; second] =>
      let hasImpactInstruction := existsb (test true Keywords.impactGate) instructions in
      let hasTestInstruction := existsb (test true Keywords.testGate) instructions in
      '(impactAnalyzerResult, audit) <-
        (if hasImpactInstruction then
           let oldPage := first in
           let newPage := second in
           res <- callImpactAnalyzer space oldPage newPage goal ;;
           ret (Some (ImpactEntry oldPage newPage res),
                note audit "Impact Analyzer"
                  ("Impact Analyzer was used to compare the changes between "
                   ++ DQ ++ oldPage ++ DQ ++ " and " ++ DQ ++ newPage ++ DQ ++ ".")
                  "The analysis was performed by comparing code differences, calculating metrics, and assessing potential risks.")
         else ret (None, audit)) ;;
      '(testStrategyResult, audit) <-
        (if hasTestInstruction then
           let codePage := first in
           let testInputPage := second in
           res <- callTestSupport space codePage testInputPage goal ;;
           ret (Some (TestEntry codePage testInputPage res),
                note audit "Test Support Tool"
                  ("Test Support Tool was used to generate test strategies for "
                   ++ DQ ++ codePage ++ DQ ++ " using " ++ DQ ++ testInputPage ++ DQ
                   ++ " as input.")
                  "The test strategy was generated by analyzing the code structure and test requirements using AI-powered testing methodologies.")
         else ret (None, audit)) ;;
      ret (impactAnalyzerResult, testStrategyResult, audit)
  | _ => ret (None, None, audit)
  end.

(** *** Output tabs *)

(** Icons are left out. *)
Record OutputTab : Type := mkTab {
  tab_id : string;
  label : string;
  content : string;
  results : list ResultEntry
}.

Definition optList {A : Type} (o : option A) : list A :=
  match o with
  | Some a => [a]
  | None => []
  end.

Definition pageTabsOf (pageResults : PageResults)
    (impactAnalyzerResult testStrategyResult : option ResultEntry) : list OutputTab :=
  if (0 <? List.length pageResults) || isSome impactAnalyzerResult || isSome testStrategyResult
  then [mkTab "per-page-results" "Page Results" EmptyString
          (optList impactAnalyzerResult ++ optList testStrategyResult
           ++ map (fun '(p, rs) => PageEntry p rs) pageResults)]
  else [].

Definition reasoning (goal : string) (selectedPages instructions : list string)
    (audit : Audit) : string :=
  join LF
    ["# Analysis Summary"; "";
     "## Goal"; goal; "";
     "## Selected Pages"; join ", " selectedPages; "";
     "## Tools Used"; join ", " (fold_left add (toolsTriggered audit) []); "";
     "## Why These Tools Were Chosen"; "";
     join LF (numbered 0 (whyUsed audit)); "";
     "## How Results Were Derived"; "";
     join LF (numbered 0 (howDerived audit)); "";
     "## Processing Summary"; "";
     ("- **Total Instructions Processed:** " ++ decimal (List.length instructions))%string;
     ("- **Pages Analyzed:** " ++ decimal (List.length selectedPages))%string;
     ("- **Analysis Completed:** " ++ localeNow ext)%string; "";
     "---"; "";
     "The AI assistant analyzed your request and automatically selected the most appropriate tools based on the content type of each page and the nature of your instructions. Each tool was chosen to provide the most relevant and accurate results for your specific needs."].

(** *** The component state *)

Inductive Status : Type := pending | running | completed.

Record PlanStep : Type := mkStep {
  step_id : nat;
  step_title : string;
  status : Status
}.

(** Identifier and timestamp of an entry come from the clock and are
    left out. *)
Record HistoryEntry : Type := mkEntry {
  h_goal : string;
  h_outputTabs : list OutputTab;
  h_selectedSpace : string;
  h_selectedPages : list string
}.

(** What the handler reads. *)
Record Inputs : Type := mkInputs {
  goal : string;
  selectedSpace : string;
  selectedPages : list string;
  pageTypes : list PageWithType
}.

(** What the handler sets ([activeResult] is left out). *)
Record View : Type := mkView {
  error : string;
  isPlanning : bool;
  planSteps : list PlanStep;
  outputTabs : list OutputTab;
  currentStep : nat;
  activeTab : string;
  progressPercent : nat;
  currentHistoryId : option string;
  showHistory : bool;
  history : list HistoryEntry
}.

Definition setError (x : string) (v : View) : View :=
  mkView x (isPlanning v) (planSteps v) (outputTabs v) (currentStep v) (activeTab v)
         (progressPercent v) (currentHistoryId v) (showHistory v) (history v).
Definition setIsPlanning (x : bool) (v : View) : View :=
  mkView (error v) x (planSteps v) (outputTabs v) (currentStep v) (activeTab v)
         (progressPercent v) (currentHistoryId v) (showHistory v) (history v).
Definition setPlanSteps (x : list PlanStep) (v : View) : View :=
  mkView (error v) (isPlanning v) x (outputTabs v) (currentStep v) (activeTab v)
         (progressPercent v) (currentHistoryId v) (showHistory v) (history v).
Definition setOutputTabs (x : list OutputTab) (v : View) : View :=
  mkView (error v) (isPlanning v) (planSteps v) x (currentStep v) (activeTab v)
         (progressPercent v) (currentHistoryId v) (showHistory v) (history v).
Definition setCurrentStep (x : nat) (v : View) : View :=
  mkView (error v) (isPlanning v) (planSteps v) (outputTabs v) x (activeTab v)
         (progressPercent v) (currentHistoryId v) (showHistory v) (history v).
Definition setActiveTab (x : string) (v : View) : View :=
  mkView (error v) (isPlanning v) (planSteps v) (outputTabs v) (currentStep v) x
         (progressPercent v) (currentHistoryId v) (showHistory v) (history v).
Definition setProgressPercent (x : nat) (v : View) : View :=
  mkView (error v) (isPlanning v) (planSteps v) (outputTabs v) (currentStep v) (activeTab v)
         x (currentHistoryId v) (showHistory v) (history v).
Definition setCurrentHistoryId (x : option string) (v : View) : View :=
  mkView (error v) (isPlanning v) (planSteps v) (outputTabs v) (currentStep v) (activeTab v)
         (progressPercent v) x (showHistory v) (history v).
Definition setShowHistory (x : bool) (v : View) : View :=
  mkView (error v) (isPlanning v) (planSteps v) (outputTabs v) (currentStep v) (activeTab v)
         (progressPercent v) (currentHistoryId v) x (history v).
Definition setHistory (x : list HistoryEntry) (v : View) : View :=
  mkView (error v) (isPlanning v) (planSteps v) (outputTabs v) (currentStep v) (activeTab v)
         (progressPercent v) (currentHistoryId v) (showHistory v) x.

(** [steps.map(s => s.id === id ? { ...s, status } : s)] *)
Definition markStep (id : nat) (st : Status) (steps : list PlanStep) : list PlanStep :=
  map (fun s => if step_id s =? id then mkStep (step_id s) (step_title s) st else s) steps.

Definition addToHistory (i : Inputs) (tabs : list OutputTab) (v : View) : View :=
  setHistory (mkEntry (goal i) tabs (selectedSpace i) (selectedPages i) :: history v) v.

Notation "v |> f" := (f v) (at level 62, left associativity, only parsing).

(** *** The handler *)

(** The awaited part of the [try] block: everything between the analysis
    of the goal and the preparation of the tabs. *)
Definition orchestrate (i : Inputs) : M (list string * list OutputTab * list OutputTab) :=
  let instructions := splitInstructions (goal i) in
  let pageInstructions := assign (pageTypes i) (selectedPages i) instructions in
  '(pageResults, audit) <-
    dispatchAll (selectedSpace i) pageInstructions [] (mkAudit [] [] []) ;;
  '(impactAnalyzerResult, testStrategyResult, audit) <-
    twoPageTools (selectedSpace i) (goal i) (selectedPages i) instructions audit ;;
  let pageTabs := pageTabsOf pageResults impactAnalyzerResult testStrategyResult in
  let tabs :=
    pageTabs ++
    [mkTab "reasoning" "Reasoning"
       (reasoning (goal i) (selectedPages i) instructions audit) [];
     mkTab "selected-pages" "Selected Pages" (join ", " (selectedPages i)) []] in
  ret (instructions, pageTabs, tabs).

(** [handleGoalSubmit]: the view it leaves and the calls it made. *)
Definition handleGoalSubmit (i : Inputs) (v : View) : View * list Event :=
  if negb (truthy (trim (goal i))) || negb (truthy (selectedSpace i))
     || (List.length (selectedPages i) =? 0)
  then (v |> setError "Please enter a goal, select a space, and at least one page.", [])
  else
    let v := v |> setIsPlanning true
               |> setError EmptyString
               |> setPlanSteps [mkStep 1 "Analyzing Goal" pending;
                                mkStep 2 "Executing" pending]
               |> setOutputTabs []
               |> setCurrentStep 0
               |> setActiveTab "final-answer"
               |> setProgressPercent 0
               |> setCurrentHistoryId None
               |> setShowHistory false in
    let v := v |> setPlanSteps (markStep 1 running (planSteps v))
               |> setCurrentStep 0 in
    let '(outcome, events) := orchestrate i [] in
    let v :=
      match outcome with
      | Some (_, pageTabs, tabs) =>
          let v := v |> setPlanSteps (markStep 1 completed (planSteps v)) in
          let v := v |> setCurrentStep 1 |> setProgressPercent 50 in
          let v := v |> setPlanSteps (markStep 2 running (planSteps v)) in
          let v := v |> setPlanSteps (markStep 2 completed (planSteps v)) in
          v |> setCurrentStep 2
            |> setProgressPercent 100
            |> setOutputTabs tabs
            |> setActiveTab (if 0 <? List.length pageTabs
                             then "per-page-results" else "reasoning")
            |> addToHistory i tabs
      | None => v |> setError "An error occurred during orchestration."
      end in
    (v |> setIsPlanning false |> setCurrentStep 2 |> setProgressPercent 100, events).

End Orchestration.


Arguments mkApi {ImpactResult}.
Arguments dispatch {ImpactResult}.
Arguments dispatchAll {ImpactResult}.
Arguments twoPageTools {ImpactResult}.
Arguments orchestrate {ImpactResult}.
Arguments handleGoalSubmit {ImpactResult}.
Arguments ImpactEntry {ImpactResult}.
Arguments TestEntry {ImpactResult}.
Arguments PageEntry {ImpactResult}.
Arguments mkTab {ImpactResult}.
Arguments mkView {ImpactResult}.
Arguments error {ImpactResult}.
Arguments outputTabs {ImpactResult}.
Arguments history {ImpactResult}.
Arguments setError {ImpactResult}.

(** ** Sample surroundings *)

Definition plainExternals : Externals :=
  mkExternals (fun response => response) (join LF)
              (fun images => join LF (map snd images))
              (fun name summary _ _ => (name ++ ": " ++ summary)%string)
              "1/1/2025, 12:00:00 PM".

(** Every collaborator resolves. *)
Definition steadyApi : Api unit :=
  mkApi (fun _ _ _ query => Some ("About: " ++ query)%string)
        (fun _ _ _ _ => Some (mkCode "x = 1" EmptyString EmptyString))
        (fun _ _ _ => Some ["a.png"; "b.png"])
        (fun _ _ _ url => Some ("Picture " ++ url)%string)
        (fun _ _ _ => Some (mkVideo "A talk" ["well said"] ["00:10"]))
        (fun _ _ _ _ _ => Some tt)
        (fun _ _ _ _ _ => Some "Test the parser").

(** The search collaborator resolves once and rejects afterwards. *)
Definition flakyApi : Api unit :=
  mkApi (fun events _ _ query =>
           if List.length events =? 0 then Some ("About: " ++ query)%string else None)
        (fun _ _ _ _ => Some (mkCode "x = 1" EmptyString EmptyString))
        (fun _ _ _ => Some ["a.png"; "b.png"])
        (fun _ _ _ url => Some ("Picture " ++ url)%string)
        (fun _ _ _ => Some (mkVideo "A talk" ["well said"] ["00:10"]))
        (fun _ _ _ _ _ => Some tt)
        (fun _ _ _ _ _ => Some "Test the parser").

Definition blankView : View unit :=
  mkView EmptyString false [] [] 0 "answer" 0 None false [].

(** ** Predicates of the statements *)

(** The documented example: two pages and one goal. *)
Definition docPages : list PageWithType :=
  [mkPage "API Docs" "text"; mkPage "auth.py" "code"].

Definition docGoal : string := "Summarize API Docs and refactor auth.py".

(** The first two tiers. *)
Definition matching (tier : Tier) : bool :=
  match tier with
  | ExplicitMention | ContentType => true
  | FirstAvailable | Default => false
  end.

(** Some instruction has been given to none of the pages before the
    [k]-th. *)
Definition someUnused (instructions : list string) (run : list (Assignment * Tier))
    (k : nat) : Prop :=
  exists i, In i instructions
            /\ forall n c, n < k -> nth_error run n = Some c -> instruction (fst c) <> i.

(** De-duplication across the first two tiers: while unused instructions
    remain, a later match of tier 1 or 2 never takes the instruction of an
    earlier match of tier 1 or 2. *)
Definition reuseFree (instructions : list string) (run : list (Assignment * Tier)) : Prop :=
  forall j k a b,
    j < k ->
    nth_error run j = Some a ->
    nth_error run k = Some b ->
    matching (snd a) = true ->
    matching (snd b) = true ->
    someUnused instructions run k ->
    instruction (fst a) <> instruction (fst b).

(** The assignment made when no instruction is left. *)
Definition synthetic (p : string) : Assignment :=
  mkAssignment p "Analyze this content" ai_powered_search.

(** The collaborators of the per-page loop. *)
Definition perPageCall (c : Call) : bool :=
  match c with
  | Search _ _ _ | CodeAssistant _ _ _ | GetImages _ _ | ImageSummary _ _ _
  | VideoSummarizer _ _ => true
  | ImpactAnalyzer _ _ _ _ | TestSupport _ _ _ _ => false
  end.

Definition isImpactCall (c : Call) : bool :=
  match c with
  | ImpactAnalyzer _ _ _ _ => true
  | _ => false
  end.

(** A computation only adds events, each of them satisfies [P], and when
    it does not throw every promise it awaited was resolved. *)
Definition emits {A : Type} (P : Event -> Prop) (m : M A) : Prop :=
  forall events,
    exists new,
      snd (m events) = events ++ new
      /\ Forall P new
      /\ (fst (m events) <> None -> Forall (fun e => resolved e = true) new).

(** The tiers that take an instruction not yet used. *)
Definition fromUnused (tier : Tier) : Prop :=
  tier = ContentType \/ tier = FirstAvailable.

(** The state between two passes: the used set has only grown, and a
    match made so far is in it and, when it came from the second or the
    third pass, was not used when the iteration began. *)
Definition passesOk (used0 : list string) (st : Matched * list string) : Prop :=
  (forall x, has used0 x = true -> has (snd st) x = true)
  /\ match fst st with
     | None => True
     | Some (i, _, tier) =>
         tier <> Default /\ has (snd st) i = true
         /\ (fromUnused tier -> has used0 i = false)
     end.

Definition perPage (e : Event) : Prop := perPageCall (call e) = true.

(** What the two-page block may call. *)
Definition special (selectedPages instructions : list string) (e : Event) : Prop :=
  List.length selectedPages = 2
  /\ (isImpactCall (call e) = true ->
      existsb (test true Keywords.impactGate) instructions = true).

(** What a run may call. *)
Definition allowed (i : Inputs) (e : Event) : Prop :=
  perPage e \/ special (selectedPages i) (splitInstructions (goal i)) e.

(** * Further code *)

Arguments activeTab {ImpactResult}.
Arguments isPlanning {ImpactResult}.
Arguments progressPercent {ImpactResult}.
Arguments currentStep {ImpactResult}.
Arguments tab_id {ImpactResult}.
Arguments content {ImpactResult}.
Arguments label {ImpactResult}.
Arguments results {ImpactResult}.
Arguments mkEntry {ImpactResult}.
Arguments currentHistoryId {ImpactResult}.
Arguments planSteps {ImpactResult}.
Arguments h_goal {ImpactResult}.
Arguments h_outputTabs {ImpactResult}.
Arguments h_selectedSpace {ImpactResult}.
Arguments h_selectedPages {ImpactResult}.
Arguments setOutputTabs {ImpactResult}.
Arguments setCurrentHistoryId {ImpactResult}.
Arguments setActiveTab {ImpactResult}.
Arguments setPlanSteps {ImpactResult}.
Arguments setCurrentStep {ImpactResult}.
Arguments setProgressPercent {ImpactResult}.

(** ** Predicates of the further statements *)

(** The code units of a text. *)
Definition chars : string -> list ascii := list_ascii_of_string.

(** The separators of one code unit. *)
Definition punctuation (c : ascii) : bool :=
  existsb (Ascii.eqb c) ["."; ";"; ","; "010"; "013"]%char.

(** [words.some(w => s.includes(w))] *)
Definition anyOf (s : string) (words : list string) : bool :=
  existsb (includes s) words.

(** The tools in the order in which the inference tests for them. *)
Definition toolOrder : list Tool :=
  [video_summarizer; image_insights; code_assistant; ai_powered_search;
   impact_analyzer; test_support].

(** [convert] with [language] or [code], in either order, on one line. *)
Definition convertPairs : regex :=
  "convert" >> any >> "language" <|> "language" >> any >> "convert"
  <|> "code" >> any >> "convert" <|> "convert" >> any >> "code".

(** The tool the second tier gives an instruction on a page of a type. *)
Definition contentTool (pageType instruction : string) : Tool :=
  keywordOverride pageType (toLowerCase instruction)
    (priorityTool pageType (inferTools instruction)).

(** [tools[0]], or the default tool. *)
Definition firstTool (tools : list Tool) : Tool :=
  match tools with
  | t :: _ => t
  | [] => ai_powered_search
  end.

(** What settles the tool of an assignment: the tier, the type of the
    page and the text of the instruction. *)
Definition tierTool (tier : Tier) (pageType instruction : string) : Tool :=
  match tier with
  | ExplicitMention => priorityTool pageType (inferTools instruction)
  | ContentType => contentTool pageType instruction
  | FirstAvailable => firstTool (inferTools instruction)
  | Default => ai_powered_search
  end.

(** Instructions handed out in order, one to a page, by the second tier;
    the pages left over take the default. *)
Fixpoint inOrder (pageTypes : list PageWithType) (fallback : string)
    (pages todo : list string) : list (Assignment * Tier) :=
  match pages with
  | [] => []
  | p :: rest =>
      match todo with
      | i :: todo' =>
          (mkAssignment p i (contentTool (pageTypeOf pageTypes p) i), ContentType)
          :: inOrder pageTypes fallback rest todo'
      | [] =>
          (mkAssignment p fallback ai_powered_search, Default)
          :: inOrder pageTypes fallback rest []
      end
  end.

(** The space a call names. *)
Definition callSpace (c : Call) : string :=
  match c with
  | Search s _ _ | CodeAssistant s _ _ | GetImages s _ | ImageSummary s _ _
  | VideoSummarizer s _ | ImpactAnalyzer s _ _ _ | TestSupport s _ _ _ => s
  end.

(** The pages a call names. *)
Definition callPages (c : Call) : list string :=
  match c with
  | Search _ ps _ => ps
  | CodeAssistant _ p _ | GetImages _ p | ImageSummary _ p _ | VideoSummarizer _ p => [p]
  | ImpactAnalyzer _ a b _ | TestSupport _ a b _ => [a; b]
  end.

(** A computation only adds events, and throws only when a promise it
    awaited was rejected. *)
Definition strict {A : Type} (m : M A) : Prop :=
  forall events,
    exists new,
      snd (m events) = events ++ new
      /\ (fst (m events) = None -> Exists (fun e => resolved e = false) new).

(** A goal, a space and at least one page. *)
Definition validated (i : Inputs) : Prop :=
  trim (goal i) <> EmptyString /\ selectedSpace i <> EmptyString /\ selectedPages i <> [].

(** The calls of the two-page block: the impact analyzer, then the test
    support, each when its flag is set. *)
Definition specialCalls (i : Inputs) (impact testing : bool) : list Call :=
  match selectedPages i with
  | [first; second] =>
      (if impact then [ImpactAnalyzer (selectedSpace i) first second (goal i)] else [])
      ++ (if testing then [TestSupport (selectedSpace i) first second (goal i)] else [])
  | _ => []
  end.

Notation "v |> f" := (f v) (at level 62, left associativity, only parsing).

(** ** The follow-up question *)

Section FollowUp.

Variable ImpactResult : Type.
Variable api : Api ImpactResult.

(** [outputTabs.find(tab => tab.id === 'qa')?.content || ''] *)
Definition qaContentOf (tabs : list (OutputTab ImpactResult)) : string :=
  match find (fun tab => String.eqb (tab_id tab) "qa") tabs with
  | Some tab => orElse (content tab) EmptyString
  | None => EmptyString
  end.

(** [handleFollowUp]: the view and the question it leaves, and the calls
    it made.  The tabs read and the tabs updated are those of the view the
    handler starts from. *)
Definition handleFollowUp (i : Inputs) (followUpQuestion : string) (v : View ImpactResult)
  : View ImpactResult * string * list Event :=
  if negb (truthy (trim followUpQuestion)) || negb (truthy (selectedSpace i))
     || (List.length (selectedPages i) =? 0)
  then (v, followUpQuestion, [])
  else
    let '(outcome, events) :=
      callSearch ImpactResult api (selectedSpace i) (selectedPages i) followUpQuestion [] in
    match outcome with
    | Some response =>
        let qaContent := qaContentOf (outputTabs v) in
        let updatedQA :=
          (qaContent ++ LF ++ LF ++ "**Q: " ++ followUpQuestion ++ "**"
           ++ LF ++ LF ++ "A: " ++ response)%string in
        (v |> setOutputTabs
                (map (fun tab => if String.eqb (tab_id tab) "qa"
                                 then mkTab (tab_id tab) (label tab) updatedQA (results tab)
                                 else tab)
                     (outputTabs v)),
         EmptyString, events)
    | None => (v |> setError "Failed to get follow-up answer.", followUpQuestion, events)
    end.

(** ** The history

    [ids] holds the identifiers of the entries of the history, newest
    first; an identifier is the clock's milliseconds when the entry was
    added. *)

(** [history.find(h => h.id === historyId)] *)
Definition findEntry (ids : list string) (entries : list (HistoryEntry ImpactResult))
    (historyId : string) : option (HistoryEntry ImpactResult) :=
  option_map snd (find (fun h => String.eqb (fst h) historyId) (combine ids entries)).

(** [loadHistoryEntry] ([activeResult] and the refetch of the page types
    are left out). *)
Definition loadHistoryEntry (ids : list string) (historyId : string)
    (i : Inputs) (v : View ImpactResult) : Inputs * View ImpactResult :=
  match findEntry ids (history v) historyId with
  | Some entry =>
      (mkInputs (h_goal entry) (h_selectedSpace entry) (h_selectedPages entry) (pageTypes i),
       v |> setOutputTabs (h_outputTabs entry)
         |> setCurrentHistoryId (Some historyId)
         |> setActiveTab (match h_outputTabs entry with
                          | tab :: _ => tab_id tab
                          | [] => "answer"
                          end)
         |> setPlanSteps []
         |> setCurrentStep 0
         |> setProgressPercent 100)
  | None => (i, v)
  end.

(** [goToLatest] *)
Definition goToLatest (ids : list string) (i : Inputs) (v : View ImpactResult)
  : Inputs * View ImpactResult :=
  match combine ids (history v) with
  | (latest, _) :: _ => loadHistoryEntry ids latest i v
  | [] => (i, v)
  end.

End FollowUp.

Arguments qaContentOf {ImpactResult}.
Arguments handleFollowUp {ImpactResult}.
Arguments findEntry {ImpactResult}.
Arguments loadHistoryEntry {ImpactResult}.
Arguments goToLatest {ImpactResult}.

(** ** The selection of pages *)

Record Selection : Type := mkSelection {
  listed : list string;        (* pages *)
  chosen : list string;        (* selectedPages *)
  selectAllPages : bool
}.

Definition toggleSelectAllPages (s : Selection) : Selection :=
  mkSelection (listed s) (if selectAllPages s then [] else listed s)
              (negb (selectAllPages s)).

(** The effect that follows a change of the pages or of the selection. *)
Definition syncSelectAll (s : Selection) : Selection :=
  mkSelection (listed s) (chosen s)
              ((0 <? List.length (listed s))
               && (List.length (chosen s) =? List.length (listed s))).

(** The check box of one page. *)
Definition checkPage (p : string) (checked : bool) (s : Selection) : Selection :=
  mkSelection (listed s)
              (if checked then chosen s ++ [p]
               else filter (fun q => negb (String.eqb q p)) (chosen s))
              (selectAllPages s).

(** ** The voice recorder (VoiceRecorder.tsx)

    The component as a state machine: its four state variables, the
    things that can happen to it, and what it does to its surroundings
    (the start of the recognition and the two callbacks). *)

Module Voice.

Record State : Type := mkState {
  isListening : bool;
  transcript : string;
  pendingTranscript : option string;
  speechError : string
}.

Definition initial : State := mkState false EmptyString None EmptyString.

Inductive Action : Type :=
| MicClick                      (* the button *)
| Recognised (t : string)       (* recognition.onresult *)
| Failed (error : string)       (* recognition.onerror *)
| Ended                         (* recognition.onend *)
| Confirm (confirmed : bool)    (* the Yes and No buttons *)
| Typed (text : string).        (* the input's onChange *)

Inductive Output : Type :=
| Started                       (* recognition.start() *)
| OnConfirm (t : string)
| OnChange (t : string).

(** The surroundings: whether the browser has a speech recognition, and
    whether the parent passed [onChange]. *)
Record Host : Type := mkHost {
  supported : bool;
  hasOnChange : bool
}.

Definition errorMessage (error : string) : string :=
  if String.eqb error "not-allowed"
  then "Microphone access denied. Please allow mic access in your browser settings."
  else if String.eqb error "no-speech" then "No speech detected. Please try again."
  else if String.eqb error "audio-capture" then "No microphone found. Please connect a mic."
  else if String.eqb error "network" then "Network error. Please check your connection."
  else if String.eqb error "aborted" then "Speech recognition aborted. Please try again."
  else "Speech recognition error. Please check your browser and permissions.".

Definition handleMicClick (h : Host) (s : State) : State * list Output :=
  let s := mkState (isListening s) (transcript s) None EmptyString in
  if supported h
  then (mkState true (transcript s) (pendingTranscript s) (speechError s), [Started])
  else (mkState (isListening s) (transcript s) (pendingTranscript s)
                "Speech recognition is not supported in this browser.", []).

Definition handleConfirm (h : Host) (confirmed : bool) (s : State) : State * list Output :=
  match pendingTranscript s with
  | Some waiting =>
      if confirmed && truthy waiting
      then (mkState (isListening s) waiting None (speechError s), [OnConfirm waiting])
      else handleMicClick h (mkState (isListening s) (transcript s) None (speechError s))
  | None => handleMicClick h (mkState (isListening s) (transcript s) None (speechError s))
  end.

Definition step (h : Host) (s : State) (a : Action) : State * list Output :=
  match a with
  | MicClick => handleMicClick h s
  | Recognised t => (mkState false (transcript s) (Some t) (speechError s), [])
  | Failed error => (mkState false (transcript s) None (errorMessage error), [])
  | Ended => (mkState false (transcript s) (pendingTranscript s) (speechError s), [])
  | Confirm confirmed => handleConfirm h confirmed s
  | Typed text =>
      (mkState (isListening s) text (pendingTranscript s) (speechError s),
       [if hasOnChange h then OnChange text else OnConfirm text])
  end.

Fixpoint run (h : Host) (s : State) (actions : list Action) : State * list Output :=
  match actions with
  | [] => (s, [])
  | a :: rest =>
      let '(s1, out1) := step h s a in
      let '(s2, out2) := run h s1 rest in
      (s2, out1 ++ out2)
  end.

(** The texts that were recognised or typed. *)
Fixpoint heard (actions : list Action) : list string :=
  match actions with
  | [] => []
  | Recognised t :: rest => t :: heard rest
  | Typed t :: rest => t :: heard rest
  | _ :: rest => heard rest
  end.

(** While listening nothing waits for confirmation. *)
Definition calm (s : State) : Prop :=
  isListening s = true -> pendingTranscript s = None.

End Voice.

(** A search event asks about one page of the assignment, with its
    instruction. *)
Definition asksFor (a : Assignment) (e : Event) : Prop :=
  forall s ps q, call e = Search s ps q -> ps = [page a] /\ q = instruction a.

(** Some category of output was filled once an action has run. *)
Definition categorised (o : CodeOutputs) : Prop :=
  truthy (lastOutput o) = true ->
  truthy (aiActionOutput o) || truthy (conversionOutput o)
  || truthy (modificationOutput o) = true.

(** ** Separators in context *)

(** The code unit before the end of [s]; [p] when [s] is empty. *)
Fixpoint lastOf (p : option ascii) (s : string) : option ascii :=
  match s with
  | EmptyString => p
  | String c r => lastOf (Some c) r
  end.

Definition blank (s : string) : Prop :=
  Forall (fun c => isWhiteSpace c = true) (chars s).

(** Whether the pattern matches at the current position. *)
Definition matchesAt (ic : bool) (r : regex) (prev : option ascii) (s : string) : bool :=
  match execAt ic r prev s with
  | Some _ => true
  | None => false
  end.

(** What the separators of the program have in common.  The code unit
    before a match matters only through its being a word character, and not
    at all before a text that starts with no word character; a match stays
    one when the text goes on, unless a word character is put after a word
    character; no match starts at a word character that follows a word
    character; a match is not empty, and is not followed by a word character
    when it ends with one. *)
Record wellBehaved (r : regex) : Prop := {
  wb_prev : forall p1 p2 s,
    isWordOpt p1 = isWordOpt p2 \/ isWordOpt (hd_char s) = false ->
    matchesAt true r p1 s = matchesAt true r p2 s;
  wb_ext : forall prev s ext,
    matchesAt true r prev s = true ->
    (isWordOpt (lastOf prev s) = true -> isWordOpt (hd_char ext) = false) ->
    matchesAt true r prev (s ++ ext) = true;
  wb_after_word : forall prev s,
    matchesAt true r prev s = true ->
    isWordOpt prev = true -> isWordOpt (hd_char s) = false;
  wb_ends : forall prev s rest,
    execAt true r prev s = Some rest ->
    exists m, s = (m ++ rest)%string /\ m <> EmptyString
              /\ (isWordOpt (lastOf prev m) = true -> isWordOpt (hd_char rest) = false)
}.

(** No separator starts in [cur], read where it stands: after [p0] and
    before [s]. *)
Definition quiet (r : regex) (p0 : option ascii) (cur s : string) : Prop :=
  (forall a b, cur = (a ++ b)%string -> b <> EmptyString ->
     execAt true r (lastOf p0 a) (b ++ s) = None)
  /\ (isWordOpt p0 = true -> isWordOpt (hd_char (cur ++ s)) = false).

(** ** Further samples *)

(** A recorded run, for the history. *)
Definition pastRun : HistoryEntry unit :=
  mkEntry "Summarize the onboarding notes"
          [mkTab "reasoning" "Reasoning" "# Analysis Summary" []]
          "DOCS" ["Home"].

Definition pastView : View unit :=
  mkView EmptyString false [] [] 0 "answer" 0 None false [pastRun].

Definition twoReleases : Inputs :=
  mkInputs "show the diff" "DOCS" ["Release 1"; "Release 2"] [].

(** * Properties *)

(** ** Segmentation *)

Section Segmentation.

Lemma refine_id (instructions : list string) : refine instructions = instructions.
Proof.
  induction instructions as [|instruction rest IH]; simpl; [reflexivity|].
  rewrite IH. now destruct (test true _ instruction).
Qed.

Lemma splitInstructions_filter (input : string) :
  splitInstructions input = filter longEnough (fragments input).
Proof.
  unfold splitInstructions.
  destruct (List.length (filter longEnough (fragments input)) =? 1);
    [reflexivity | apply refine_id].
Qed.

Lemma longEnough_spec (instr : string) :
  longEnough instr = true <-> 3 < String.length instr.
Proof.
  unfold longEnough. rewrite andb_true_iff, !Nat.ltb_lt. lia.
Qed.

Lemma append_snoc (cur : string) (c : ascii) (s : string) :
  ((cur ++ String c EmptyString) ++ s)%string = (cur ++ String c s)%string.
Proof.
  induction cur as [|d cur IH]; simpl; [reflexivity | now rewrite IH].
Qed.

(** Without a match anywhere, [split] returns the text whole. *)
Lemma splitFrom_whole (ic : bool) (r : regex) (s : string) :
  forall prev cur,
    testFrom ic r prev s = false ->
    splitFrom ic r prev 0 cur s = [(cur ++ s)%string].
Proof.
  induction s as [|c s IH]; intros prev cur Hno; simpl in *.
  - f_equal. induction cur as [|d cur IHc]; simpl; [reflexivity | now rewrite <- IHc at 1].
  - destruct (execAt ic r prev (String c s)); [discriminate|].
    rewrite (IH _ _ Hno). now rewrite append_snoc.
Qed.

Lemma split_whole (ic : bool) (r : regex) (s : string) :
  test ic r s = false -> split ic r s = [s].
Proof.
  unfold test, split. intros Hno. destruct s as [|c s].
  - simpl in Hno. now destruct (execAt ic r None EmptyString).
  - now rewrite (splitFrom_whole _ _ _ _ EmptyString Hno).
Qed.

Lemma filter_nil_Forall {A : Type} (f : A -> bool) (l : list A) :
  Forall (fun x => f x = false) l -> filter f l = [].
Proof.
  induction 1 as [|x l Hx _ IH]; simpl; [reflexivity | now rewrite Hx].
Qed.

Lemma filter_nonempty {A : Type} (f : A -> bool) (l : list A) :
  filter f l <> [] <-> exists x, In x l /\ f x = true.
Proof.
  split.
  - intros Hne. destruct (filter f l) as [|x rest] eqn:E; [congruence|].
    exists x. apply filter_In. rewrite E. now left.
  - intros (x & Hin & Hx) E.
    assert (In x (filter f l)) as Hf by (apply filter_In; now split).
    now rewrite E in Hf.
Qed.

(** C3, as stated, fails: the goal [fix] is not empty after trimming and
    yields no instruction. *)
Lemma short_goal_yields_no_instruction :
  trim "fix" <> EmptyString /\ splitInstructions "fix" = [].
Proof. split; [discriminate | reflexivity]. Qed.

(** C3 (amended): segmentation is a total function with no error result,
    and it returns at least one instruction exactly when some fragment of
    the goal (split at the separators, then trimmed) is longer than three
    characters. *)
Theorem splitInstructions_nonempty_iff (input : string) :
  splitInstructions input <> [] <->
  exists f, In f (fragments input) /\ 3 < String.length f.
Proof.
  rewrite splitInstructions_filter, filter_nonempty.
  split; intros (f & Hin & Hf); exists f; split; trivial; now apply longEnough_spec.
Qed.

(** C8, as stated, fails: [go] holds no separator, and segmentation does
    not return the trimmed goal. *)
Lemma short_whole_goal_is_dropped :
  test true separators " go " = false /\ splitInstructions " go " <> [trim " go "].
Proof. split; [reflexivity | discriminate]. Qed.

(** C8 (amended): for every goal that holds no separator and whose
    trimmed text is longer than three characters, segmentation returns
    exactly one instruction, the trimmed goal. *)
Theorem splitInstructions_whole (goal : string) :
  test true separators goal = false ->
  3 < String.length (trim goal) ->
  splitInstructions goal = [trim goal].
Proof.
  intros Hno Hlen. unfold splitInstructions, fragments.
  rewrite (split_whole _ _ _ Hno). simpl.
  apply longEnough_spec in Hlen. now rewrite Hlen.
Qed.

Lemma splitInstructions_whole_witness :
  test true separators "  Summarize this page " = false /\
  3 < String.length (trim "  Summarize this page ") /\
  splitInstructions "  Summarize this page " = [trim "  Summarize this page "].
Proof.
  split; [reflexivity | split; [vm_compute; lia |]].
  apply (splitInstructions_whole "  Summarize this page ");
    [reflexivity | vm_compute; lia].
Defined.

End Segmentation.

(** ** Assignment *)

Section Assignment.

Variable instructions : list string.
Variable its : list InstructionTools.
Variable pageTypes : list PageWithType.

Lemma has_add_same (used : list string) (i : string) : has (add used i) i = true.
Proof.
  unfold add. destruct (has used i) eqn:E; [exact E|].
  unfold has, push. rewrite existsb_app. simpl.
  now rewrite String.eqb_refl, orb_true_r.
Qed.

Lemma has_add_mono (used : list string) (i x : string) :
  has used x = true -> has (add used i) x = true.
Proof.
  intros Hx. unfold add. destruct (has used i); [exact Hx|].
  unfold has, push. rewrite existsb_app. unfold has in Hx. now rewrite Hx.
Qed.

Lemma contentPass_unused (pageType : string) (used : list string) (i : string) (t : Tool) :
  forall l, contentPass pageType used l = Some (i, t) -> has used i = false.
Proof.
  induction l as [|it rest IH]; simpl; [discriminate|].
  destruct (has used (it_instruction it)) eqn:E; [exact IH|].
  intros H. injection H as <- _. exact E.
Qed.

Lemma availablePass_unused (used : list string) (i : string) (t : Tool) :
  forall l, availablePass used l = Some (i, t) -> has used i = false.
Proof.
  induction l as [|it rest IH]; simpl; [discriminate|].
  destruct (has used (it_instruction it)) eqn:E; [exact IH|].
  intros H. injection H as <- _. exact E.
Qed.

Lemma grown_unused (used0 used : list string) (i : string) :
  (forall x, has used0 x = true -> has used x = true) ->
  has used i = false -> has used0 i = false.
Proof.
  intros Hmono Hi. destruct (has used0 i) eqn:E; trivial.
  now rewrite (Hmono _ E) in Hi.
Qed.

Lemma record_ok (used0 : list string) (tier : Tier) (found : option (string * Tool))
    (m : Matched) (used : list string) :
  passesOk used0 (m, used) ->
  tier <> Default ->
  (forall i t, found = Some (i, t) -> fromUnused tier -> has used i = false) ->
  passesOk used0 (record tier found m used).
Proof.
  intros [Hmono Hm] Htier Hfound. unfold record.
  destruct found as [[i t]|]; [|now split].
  split; simpl in *.
  - intros x Hx. apply has_add_mono. now apply Hmono.
  - repeat split; trivial; [apply has_add_same|].
    intros Hu. eapply grown_unused; eauto.
Qed.

(** What one iteration does to the used set. *)
Lemma matchPage_spec (used : list string) (p : string)
    (a : Assignment) (tier : Tier) (used' : list string) :
  matchPage instructions its pageTypes used p = (a, tier, used') ->
  page a = p
  /\ (forall x, has used x = true -> has used' x = true)
  /\ (tier <> Default -> has used' (instruction a) = true)
  /\ (fromUnused tier -> has used (instruction a) = false).
Proof.
  unfold matchPage.
  set (pageType := pageTypeOf pageTypes p).
  destruct (record ExplicitMention _ None used) as [m1 u1] eqn:R1.
  assert (passesOk used (m1, u1)) as H1.
  { rewrite <- R1. apply record_ok; [now split | discriminate |].
    intros i t _ [E|E]; discriminate. }
  destruct (if unmatched m1 then _ else (m1, u1)) as [m2 u2] eqn:R2.
  assert (passesOk used (m2, u2)) as H2.
  { rewrite <- R2. destruct (unmatched m1); trivial.
    apply record_ok; trivial; [discriminate|].
    intros i t Hc _. now apply contentPass_unused in Hc. }
  destruct (if unmatched m2 then _ else (m2, u2)) as [m3 u3] eqn:R3.
  assert (passesOk used (m3, u3)) as H3.
  { rewrite <- R3. destruct (unmatched m2); trivial.
    apply record_ok; trivial; [discriminate|].
    intros i t Hc _. now apply availablePass_unused in Hc. }
  clear R1 R2 R3 H1 H2. destruct H3 as [Hmono Hm]. simpl in *.
  destruct (unmatched m3) eqn:U.
  - intros H. injection H as <- <- <-. simpl.
    repeat split; trivial; [congruence|]. intros [E|E]; discriminate.
  - destruct m3 as [[[i t] tr]|]; [|discriminate].
    intros H. injection H as <- <- <-. simpl. tauto.
Qed.

(** Every page keeps its place. *)
Lemma matchPages_pages (pages : list string) :
  forall used, map (fun r => page (fst r)) (matchPages instructions its pageTypes used pages) = pages.
Proof.
  induction pages as [|p rest IH]; intros used; simpl; [reflexivity|].
  destruct (matchPage instructions its pageTypes used p) as [[a tier] used'] eqn:E.
  simpl. rewrite IH. f_equal.
  now destruct (matchPage_spec _ _ _ _ _ E).
Qed.

(** A match of the second or third pass was not in the used set with
    which the loop was entered. *)
Lemma matchPages_unused (pages : list string) :
  forall used k b,
    nth_error (matchPages instructions its pageTypes used pages) k = Some b ->
    fromUnused (snd b) ->
    has used (instruction (fst b)) = false.
Proof.
  induction pages as [|p rest IH]; intros used k b; simpl.
  - now destruct k.
  - destruct (matchPage instructions its pageTypes used p) as [[a tier] used'] eqn:E.
    destruct (matchPage_spec _ _ _ _ _ E) as (_ & Hmono & _ & Hfresh).
    destruct k as [|k]; simpl.
    + intros H. injection H as <-. exact Hfresh.
    + intros Hk Hb. eapply grown_unused; eauto.
Qed.

Lemma matchPages_fresh (pages : list string) :
  forall used j k a b,
    j < k ->
    nth_error (matchPages instructions its pageTypes used pages) j = Some a ->
    nth_error (matchPages instructions its pageTypes used pages) k = Some b ->
    snd a <> Default ->
    fromUnused (snd b) ->
    instruction (fst a) <> instruction (fst b).
Proof.
  induction pages as [|p rest IH]; intros used j k a b Hjk; simpl.
  - now destruct j.
  - destruct (matchPage instructions its pageTypes used p) as [[a0 tier] used'] eqn:E.
    destruct (matchPage_spec _ _ _ _ _ E) as (_ & _ & Hused & _).
    destruct k as [|k]; [lia|]. destruct j as [|j]; simpl.
    + intros H Hk Ha Hb. injection H as <-. simpl in *.
      pose proof (matchPages_unused _ _ _ _ Hk Hb) as Hfree.
      intros Heq. rewrite <- Heq, (Hused Ha) in Hfree. discriminate.
    + apply IH. lia.
Qed.

End Assignment.

(** C2, as stated, fails: the two assignments are not both resolved by
    the explicit-mention tier, and no instruction contains the text
    [refactor auth.py]. *)
Lemma documented_example_not_all_explicit :
  ~ exists i1 i2,
      route docPages ["API Docs"; "auth.py"] (splitInstructions docGoal)
      = [(mkAssignment "API Docs" i1 ai_powered_search, ExplicitMention);
         (mkAssignment "auth.py" i2 code_assistant, ExplicitMention)]
      /\ includes i1 "Summarize API Docs" = true
      /\ includes i2 "refactor auth.py" = true.
Proof.
  intros (i1 & i2 & H & _). vm_compute in H. discriminate H.
Qed.

(** C2 (amended): for the pages API Docs (text) and auth.py (code) and
    the goal [Summarize API Docs and refactor auth.py], segmentation also
    splits at the period of auth.py and drops the fragment [py]; the
    assignments, in page order, are (API Docs, [Summarize API Docs],
    ai_powered_search), resolved by the explicit mention, and (auth.py,
    [refactor auth], code_assistant), resolved by the content-type tier. *)
Theorem documented_example :
  splitInstructions docGoal = ["Summarize API Docs"; "refactor auth"]
  /\ route docPages ["API Docs"; "auth.py"] (splitInstructions docGoal)
     = [(mkAssignment "API Docs" "Summarize API Docs" ai_powered_search, ExplicitMention);
        (mkAssignment "auth.py" "refactor auth" code_assistant, ContentType)].
Proof. split; reflexivity. Qed.

(** C4, as stated, fails: the page Docs takes, by explicit mention, the
    instruction already given to the page API Docs, while another
    instruction is still unused. *)
Lemma explicit_mention_takes_used_instruction :
  ~ reuseFree (splitInstructions "Summarize API Docs and refactor the auth module")
      (route [] ["API Docs"; "Docs"]
         (splitInstructions "Summarize API Docs and refactor the auth module")).
Proof.
  intros H.
  apply (H 0 1 (mkAssignment "API Docs" "Summarize API Docs" ai_powered_search, ExplicitMention)
             (mkAssignment "Docs" "Summarize API Docs" ai_powered_search, ExplicitMention));
    try reflexivity; [lia|].
  exists "refactor the auth module". split; [vm_compute; tauto|].
  intros n c Hn Hc. assert (n = 0) as -> by lia.
  vm_compute in Hc. injection Hc as <-. discriminate.
Qed.

(** C4 (amended): every match of tiers 1 to 3 puts its instruction in the
    used set, and a later page's content-type (tier 2) match, like its
    first-available (tier 3) match, never takes an instruction that an
    earlier page received from one of these tiers.  The explicit-mention
    tier does not consult the used set. *)
Theorem later_match_takes_unused_instruction
    (pageTypes : list PageWithType) (selectedPages instructions : list string)
    (j k : nat) (a b : Assignment * Tier) :
  j < k ->
  nth_error (route pageTypes selectedPages instructions) j = Some a ->
  nth_error (route pageTypes selectedPages instructions) k = Some b ->
  snd a <> Default ->
  snd b = ContentType \/ snd b = FirstAvailable ->
  instruction (fst a) <> instruction (fst b).
Proof. unfold route. apply matchPages_fresh. Qed.

Lemma later_match_takes_unused_instruction_witness :
  let run := route [mkPage "Intro" "video"] ["Home"; "Intro"]
               ["update the home layout"; "transcribe the talk"] in
  nth_error run 0 = Some (mkAssignment "Home" "update the home layout" ai_powered_search,
                          ExplicitMention)
  /\ nth_error run 1 = Some (mkAssignment "Intro" "transcribe the talk" video_summarizer,
                             ContentType)
  /\ "update the home layout" <> "transcribe the talk".
Proof.
  split; [reflexivity | split; [reflexivity|]].
  apply (later_match_takes_unused_instruction
           [mkPage "Intro" "video"] ["Home"; "Intro"]
           ["update the home layout"; "transcribe the talk"] 0 1
           (mkAssignment "Home" "update the home layout" ai_powered_search, ExplicitMention)
           (mkAssignment "Intro" "transcribe the talk" video_summarizer, ContentType));
    [lia | reflexivity | reflexivity | discriminate | left; reflexivity].
Defined.

(** C5: for every sequence of selected pages and every instruction list
    the assignment procedure produces one assignment per page, the i-th
    one for the i-th page, however few instructions there are. *)
Theorem assign_one_per_page_in_order
    (pageTypes : list PageWithType) (selectedPages instructions : list string) :
  map page (assign pageTypes selectedPages instructions) = selectedPages.
Proof.
  unfold assign, route. rewrite map_map. apply matchPages_pages.
Qed.

Lemma matchPages_none (pageTypes : list PageWithType) (pages : list string) :
  forall used,
    matchPages [] [] pageTypes used pages = map (fun p => (synthetic p, Default)) pages.
Proof.
  induction pages as [|p rest IH]; intros used; simpl; [reflexivity|].
  now rewrite IH.
Qed.

(** C10: when the goal is not blank and every fragment of it has at most
    three characters after trimming, segmentation returns no instruction
    and every selected page receives the instruction
    [Analyze this content] with the tool ai_powered_search. *)
Theorem short_fragments_give_synthetic_assignments
    (pageTypes : list PageWithType) (selectedPages : list string) (goal : string) :
  trim goal <> EmptyString ->
  Forall (fun f => String.length f <= 3) (fragments goal) ->
  splitInstructions goal = []
  /\ assign pageTypes selectedPages (splitInstructions goal) = map synthetic selectedPages.
Proof.
  intros _ Hshort.
  assert (splitInstructions goal = []) as E.
  { rewrite splitInstructions_filter. apply filter_nil_Forall.
    eapply Forall_impl; [|exact Hshort]. intros f Hf. simpl in Hf.
    destruct (longEnough f) eqn:L; trivial. apply longEnough_spec in L. lia. }
  split; [exact E|]. rewrite E. unfold assign, route. simpl.
  rewrite matchPages_none, map_map. reflexivity.
Qed.

Lemma short_fragments_give_synthetic_assignments_witness :
  trim "fix" <> EmptyString
  /\ Forall (fun f => String.length f <= 3) (fragments "fix")
  /\ splitInstructions "fix" = []
  /\ assign docPages ["API Docs"; "auth.py"] (splitInstructions "fix")
     = map synthetic ["API Docs"; "auth.py"].
Proof.
  assert (trim "fix" <> EmptyString) as H1 by discriminate.
  assert (Forall (fun f => String.length f <= 3) (fragments "fix")) as H2
    by (vm_compute; repeat constructor).
  split; [exact H1 | split; [exact H2|]].
  exact (short_fragments_give_synthetic_assignments docPages ["API Docs"; "auth.py"] "fix" H1 H2).
Defined.

(** ** Collaborator calls *)

Section Traces.

Context {A B : Type}.
Variable P : Event -> Prop.

Lemma emits_ret (a : A) : emits P (ret a).
Proof.
  intros events. exists []. simpl. rewrite app_nil_r. auto.
Qed.

Lemma emits_throw : emits P (@throw A).
Proof.
  intros events. exists []. simpl. rewrite app_nil_r. auto.
Qed.

Lemma emits_bind (m : M A) (f : A -> M B) :
  emits P m -> (forall a, emits P (f a)) -> emits P (bind m f).
Proof.
  intros Hm Hf events. unfold bind.
  destruct (Hm events) as (new1 & E1 & P1 & R1).
  destruct (m events) as [[a|] events1]; simpl in *; subst events1.
  - destruct (Hf a (events ++ new1)) as (new2 & E2 & P2 & R2).
    exists (new1 ++ new2). rewrite E2, app_assoc. repeat split.
    + apply Forall_app. now split.
    + intros Hok. apply Forall_app. split; [apply R1; discriminate | now apply R2].
  - exists new1. repeat split; trivial. congruence.
Qed.

Lemma emits_invoke (c : Call) (answer : list Event -> option A) :
  (forall b, P (mkEvent c b)) -> emits P (invoke c answer).
Proof.
  intros Hc events. unfold invoke, push. eexists. simpl. repeat split.
  - now constructor.
  - intros Hok. constructor; [|constructor]. simpl. now destruct (answer events).
Qed.

Lemma emits_all (ms : list (M A)) : Forall (emits P) ms -> emits P (all ms).
Proof.
  induction 1 as [|m rest Hm _ IH]; intros events; simpl.
  - exists []. simpl. rewrite app_nil_r. auto.
  - destruct (Hm events) as (new1 & E1 & P1 & R1).
    destruct (m events) as [r events1]; simpl in *; subst events1.
    destruct (IH (events ++ new1)) as (new2 & E2 & P2 & R2).
    destruct (all rest (events ++ new1)) as [rs events2]; simpl in *; subst events2.
    exists (new1 ++ new2). rewrite app_assoc. repeat split.
    + apply Forall_app. now split.
    + intros Hok. destruct r, rs; try congruence.
      apply Forall_app. split; [apply R1 | apply R2]; discriminate.
Qed.

Lemma emits_all_map {X : Type} (f : X -> M A) (xs : list X) :
  (forall x, emits P (f x)) -> emits P (all (map f xs)).
Proof.
  intros Hf. apply emits_all. apply Forall_forall.
  intros m Hin. apply in_map_iff in Hin. destruct Hin as (x & <- & _). apply Hf.
Qed.

End Traces.

Lemma emits_weaken {A : Type} (P Q : Event -> Prop) (m : M A) :
  (forall e, P e -> Q e) -> emits P m -> emits Q m.
Proof.
  intros HPQ Hm events. destruct (Hm events) as (new & E & HP & R).
  exists new. repeat split; trivial. eapply Forall_impl; eauto.
Qed.

Ltac emit :=
  repeat first
    [ apply emits_ret
    | apply emits_throw
    | apply emits_invoke; intros ?; simpl; auto
    | apply emits_all_map; intros ?
    | apply emits_bind; [|intros ?] ].

Section Handler.

Context {ImpactResult : Type}.
Variable ext : Externals.
Variable api : Api ImpactResult.

Lemma runActions_emits (space page detectedCode : string) (actions : list string) :
  forall o, emits perPage (runActions ImpactResult api space page detectedCode actions o).
Proof.
  induction actions as [|action rest IH]; intros o; simpl.
  - apply emits_ret.
  - apply emits_bind; [unfold callCodeAssistant; emit; reflexivity|].
    intros result. apply IH.
Qed.

Lemma dispatch_emits (space : string) (a : Assignment) (audit : Audit) :
  emits perPage (dispatch ext api space a audit).
Proof.
  unfold dispatch, viaSearch, callSearch, callCodeAssistant, callGetImages,
    callImageSummary, callVideoSummarizer.
  destruct (tool a).
  - emit; reflexivity.
  - apply emits_bind; [emit; reflexivity|]. intros images.
    apply emits_bind; [|intros; emit].
    destruct (0 <? List.length images); emit; reflexivity.
  - apply emits_bind; [emit; reflexivity|]. intros initialResult.
    apply emits_bind; [apply runActions_emits|]. intros; emit.
  - emit; reflexivity.
  - emit; reflexivity.
  - emit; reflexivity.
Qed.

Lemma dispatchAll_emits (space : string) (assignments : list Assignment) :
  forall pageResults audit,
    emits perPage (dispatchAll ext api space assignments pageResults audit).
Proof.
  induction assignments as [|a rest IH]; intros pageResults audit; simpl.
  - apply emits_ret.
  - apply emits_bind; [apply dispatch_emits|].
    intros [r audit']. destruct (inherited (page a)); [apply emits_throw | apply IH].
Qed.

Lemma twoPageTools_emits (space goal : string) (selectedPages instructions : list string)
    (audit : Audit) :
  emits (special selectedPages instructions)
        (twoPageTools api space goal selectedPages instructions audit).
Proof.
  unfold twoPageTools, callImpactAnalyzer, callTestSupport.
  destruct selectedPages as [|first [|second [|third rest]]]; try apply emits_ret.
  apply emits_bind.
  - destruct (existsb (test true Keywords.impactGate) instructions) eqn:G; emit.
    split; trivial.
  - intros [impactAnalyzerResult audit1]. apply emits_bind.
    + destruct (existsb (test true Keywords.testGate) instructions); emit.
      split; [reflexivity | discriminate].
    + intros [testStrategyResult audit2]. apply emits_ret.
Qed.

Lemma orchestrate_emits (i : Inputs) : emits (allowed i) (orchestrate ext api i).
Proof.
  unfold orchestrate. apply emits_bind.
  - eapply emits_weaken; [|apply dispatchAll_emits]. intros e He. now left.
  - intros [pageResults audit]. apply emits_bind.
    + eapply emits_weaken; [|apply twoPageTools_emits]. intros e He. now right.
    + intros [[impactAnalyzerResult testStrategyResult] audit']. apply emits_ret.
Qed.

End Handler.

(** ** The handler *)

Section Submission.

Context {ImpactResult : Type}.
Variable ext : Externals.
Variable api : Api ImpactResult.

Lemma handleGoalSubmit_events (i : Inputs) (v : View ImpactResult) :
  Forall (allowed i) (snd (handleGoalSubmit ext api i v)).
Proof.
  unfold handleGoalSubmit.
  destruct (negb (truthy (trim (goal i))) || negb (truthy (selectedSpace i))
            || (List.length (selectedPages i) =? 0)); [constructor|].
  destruct (orchestrate_emits ext api i []) as (new & E & Hall & _).
  destruct (orchestrate ext api i []) as [outcome events]. simpl in *. now subst events.
Qed.

(** C6: when the goal is empty or blank, or no space is selected, or no
    page is selected, the handler only sets the validation error and
    returns: it invokes no collaborator. *)
Theorem invalid_submission_calls_nothing (i : Inputs) (v : View ImpactResult) :
  trim (goal i) = EmptyString \/ selectedSpace i = EmptyString \/ selectedPages i = [] ->
  handleGoalSubmit ext api i v
  = (setError "Please enter a goal, select a space, and at least one page." v, []).
Proof.
  intros H. unfold handleGoalSubmit.
  assert (negb (truthy (trim (goal i))) || negb (truthy (selectedSpace i))
          || (List.length (selectedPages i) =? 0) = true) as ->; [|reflexivity].
  destruct H as [E | [E | E]]; rewrite E; simpl;
    rewrite ?orb_true_r; reflexivity.
Qed.

(** C7: when a collaborator call of a run rejects, the handler reports
    the one message [An error occurred during orchestration.] and leaves
    the output tabs empty, whatever the pages before the failure had
    produced. *)
Theorem rejected_call_fails_whole_run (i : Inputs) (v : View ImpactResult) :
  Exists (fun e => resolved e = false) (snd (handleGoalSubmit ext api i v)) ->
  error (fst (handleGoalSubmit ext api i v)) = "An error occurred during orchestration."
  /\ outputTabs (fst (handleGoalSubmit ext api i v)) = [].
Proof.
  unfold handleGoalSubmit.
  destruct (negb (truthy (trim (goal i))) || negb (truthy (selectedSpace i))
            || (List.length (selectedPages i) =? 0)); simpl.
  - intros H. inversion H.
  - destruct (orchestrate_emits ext api i []) as (new & E & _ & Hres).
    destruct (orchestrate ext api i []) as [[[[instructions pageTabs] tabs]|] events];
      simpl in *; subst events.
    + intros H. apply Exists_exists in H. destruct H as (e & Hin & He).
      assert (resolved e = true) as Hr.
      { clear He. revert e Hin. apply Forall_forall. apply Hres. discriminate. }
      congruence.
    + intros _. split; reflexivity.
Qed.

(** C9: the per-page loop calls only the search, code-assistant, image
    and video collaborators; an assignment whose tool is impact_analyzer
    or test_support makes exactly one call, to the search collaborator,
    with the page and the instruction; and a call of the impact analyzer
    or of the test support occurs in a run only when exactly two pages
    are selected. *)
Theorem per_page_loop_calls :
  (forall space a audit events,
      exists new,
        snd (dispatch ext api space a audit events) = events ++ new
        /\ Forall (fun e => perPageCall (call e) = true) new)
  /\ (forall space assignments pageResults audit events,
         exists new,
           snd (dispatchAll ext api space assignments pageResults audit events)
           = events ++ new
           /\ Forall (fun e => perPageCall (call e) = true) new)
  /\ (forall space p instr audit events,
         let viaFallback :=
           events ++ [mkEvent (Search space [p] instr)
                              (isSome (search ImpactResult api events space [p] instr))] in
         snd (dispatch ext api space (mkAssignment p instr impact_analyzer) audit events)
         = viaFallback
         /\ snd (dispatch ext api space (mkAssignment p instr test_support) audit events)
            = viaFallback)
  /\ (forall i v,
         Forall (fun e => perPageCall (call e) = true
                          \/ List.length (selectedPages i) = 2)
                (snd (handleGoalSubmit ext api i v))).
Proof.
  repeat split.
  - intros space a audit events.
    destruct (dispatch_emits ext api space a audit events) as (new & E & Hall & _).
    now exists new.
  - intros space assignments pageResults audit events.
    destruct (dispatchAll_emits ext api space assignments pageResults audit events)
      as (new & E & Hall & _).
    now exists new.
  - unfold dispatch, viaSearch, callSearch, bind, invoke. simpl.
    now destruct (search ImpactResult api events space [p] instr).
  - unfold dispatch, viaSearch, callSearch, bind, invoke. simpl.
    now destruct (search ImpactResult api events space [p] instr).
  - intros i v. eapply Forall_impl; [|apply handleGoalSubmit_events].
    intros e [He | [Hlen _]]; [now left | now right].
Qed.

(** C1, at the input that fails: for the goal [what changed] and any two
    selected pages, the inferred tool is impact_analyzer (the keyword
    [change]), no instruction passes the keyword test of the two-page
    block (impact, compare, difference, diff), and the run never calls the
    impact analyzer. *)
Theorem what_changed_skips_impact_analyzer
    (space first second : string) (types : list PageWithType) (v : View ImpactResult) :
  inferTools "what changed" = [impact_analyzer]
  /\ existsb (test true Keywords.impactGate) (splitInstructions "what changed") = false
  /\ Forall (fun e => isImpactCall (call e) = false)
            (snd (handleGoalSubmit ext api
                    (mkInputs "what changed" space [first; second] types) v)).
Proof.
  split; [reflexivity | split; [reflexivity|]].
  eapply Forall_impl; [|apply handleGoalSubmit_events].
  intros e [He | [_ Hgate]].
  - unfold perPage in He. now destruct (call e).
  - destruct (isImpactCall (call e)); trivial.
    specialize (Hgate eq_refl). vm_compute in Hgate. discriminate.
Qed.

End Submission.

(** The two-page block is reached with a goal that passes its keyword
    test: the impact analyzer receives the pages in selection order. *)
Example diff_goal_reaches_impact_analyzer :
  map call (snd (handleGoalSubmit plainExternals steadyApi
                   (mkInputs "show the diff" "DOCS" ["Release 1"; "Release 2"] [])
                   blankView))
  = [Search "DOCS" ["Release 1"] "show the diff";
     Search "DOCS" ["Release 2"] "show the diff";
     ImpactAnalyzer "DOCS" "Release 1" "Release 2" "show the diff"].
Proof. reflexivity. Qed.

Lemma invalid_submission_calls_nothing_witness :
  (trim (goal (mkInputs "   " "DOCS" ["Home"] [])) = EmptyString
   \/ selectedSpace (mkInputs "   " "DOCS" ["Home"] []) = EmptyString
   \/ selectedPages (mkInputs "   " "DOCS" ["Home"] []) = [])
  /\ handleGoalSubmit plainExternals steadyApi (mkInputs "   " "DOCS" ["Home"] []) blankView
     = (setError "Please enter a goal, select a space, and at least one page." blankView, []).
Proof.
  split; [left; reflexivity|].
  apply (invalid_submission_calls_nothing plainExternals steadyApi
           (mkInputs "   " "DOCS" ["Home"] []) blankView).
  left. reflexivity.
Defined.

Lemma rejected_call_fails_whole_run_witness :
  let r := handleGoalSubmit plainExternals flakyApi
             (mkInputs "Summarize the onboarding notes" "DOCS" ["Home"; "Guide"] [])
             blankView in
  map resolved (snd r) = [true; false]
  /\ error (fst r) = "An error occurred during orchestration."
  /\ outputTabs (fst r) = [].
Proof.
  split; [reflexivity|].
  apply (rejected_call_fails_whole_run plainExternals flakyApi
           (mkInputs "Summarize the onboarding notes" "DOCS" ["Home"; "Guide"] [])
           blankView).
  vm_compute. apply Exists_cons_tl. apply Exists_cons_hd. reflexivity.
Defined.

(** * Further properties *)

(** ** Fragments and instructions *)

Section Fragments.

Lemma trimEnd_idem (s : string) : trimEnd (trimEnd s) = trimEnd s.
Proof.
  induction s as [|c r IH]; simpl; [reflexivity|].
  destruct (trimEnd r) as [|d r'] eqn:E.
  - destruct (isWhiteSpace c) eqn:W; simpl; [reflexivity | now rewrite W].
  - simpl in *. now rewrite IH.
Qed.

Lemma trimStart_head (s : string) :
  match trimStart s with
  | EmptyString => True
  | String c _ => isWhiteSpace c = false
  end.
Proof.
  induction s as [|c r IH]; simpl; [exact I|].
  destruct (isWhiteSpace c) eqn:W; [exact IH | exact W].
Qed.

Lemma trimEnd_head (c : ascii) (r : string) :
  isWhiteSpace c = false -> exists r', trimEnd (String c r) = String c r'.
Proof.
  intros W. simpl. destruct (trimEnd r); [rewrite W|]; eauto.
Qed.

Lemma trim_idem (s : string) : trim (trim s) = trim s.
Proof.
  unfold trim. pose proof (trimStart_head s) as H.
  destruct (trimStart s) as [|c r]; [reflexivity|].
  destruct (trimEnd_head c r H) as (r' & E). rewrite E.
  assert (trimStart (String c r') = String c r') as -> by (simpl; now rewrite H).
  rewrite <- E. apply trimEnd_idem.
Qed.

Lemma chars_app (a b : string) : chars (a ++ b) = chars a ++ chars b.
Proof. induction a as [|c a IH]; simpl; [reflexivity | now rewrite IH]. Qed.

Lemma trimStart_chars (P : ascii -> Prop) (s : string) :
  Forall P (chars s) -> Forall P (chars (trimStart s)).
Proof.
  induction s as [|c r IH]; simpl; intros H; [exact H|].
  destruct (isWhiteSpace c); [apply IH; now inversion H | exact H].
Qed.

Lemma trimEnd_chars (P : ascii -> Prop) (s : string) :
  Forall P (chars s) -> Forall P (chars (trimEnd s)).
Proof.
  induction s as [|c r IH]; simpl; intros H; [exact H|].
  inversion H as [|? ? Hc Hr]; subst. specialize (IH Hr).
  destruct (trimEnd r); [destruct (isWhiteSpace c)|]; simpl; auto.
Qed.

Lemma trim_chars (P : ascii -> Prop) (s : string) :
  Forall P (chars s) -> Forall P (chars (trim s)).
Proof. intros H. now apply trimEnd_chars, trimStart_chars. Qed.

(** A code unit at which the pattern always matches, consuming it, is in
    no piece of the split. *)
Lemma splitFrom_avoids (ic : bool) (r : regex) (q : ascii -> bool) :
  (forall prev c s', q c = true ->
     exists rest, execAt ic r prev (String c s') = Some rest
                  /\ String.length rest <= String.length s') ->
  forall s prev skip cur,
    Forall (fun c => q c = false) (chars cur) ->
    Forall (fun piece => Forall (fun c => q c = false) (chars piece))
           (splitFrom ic r prev skip cur s).
Proof.
  intros Hq. induction s as [|c s IH]; intros prev skip cur Hcur; cbn [splitFrom].
  - now constructor.
  - destruct skip as [|n]; [|now apply IH].
    assert (forall x, q x = false ->
              Forall (fun c => q c = false) (chars (cur ++ String x EmptyString))) as Hsnoc.
    { intros x Hx. rewrite chars_app. apply Forall_app. split; trivial.
      now repeat constructor. }
    destruct (execAt ic r prev (String c s)) as [rest|] eqn:E.
    + destruct (String.length (String c s) - String.length rest) eqn:L.
      * assert (q c = false) as Hc.
        { destruct (q c) eqn:Q; trivial.
          destruct (Hq prev c s Q) as (rest' & E' & L'). rewrite E in E'.
          injection E' as <-.
          change (String.length (String c s)) with (S (String.length s)) in L. lia. }
        destruct (truthy cur).
        -- constructor; trivial. apply IH. now repeat constructor.
        -- apply IH. now apply Hsnoc.
      * constructor; trivial. apply IH. constructor.
    + apply IH. apply Hsnoc. destruct (q c) eqn:Q; trivial.
      destruct (Hq prev c s Q) as (rest' & E' & _). congruence.
Qed.

Lemma split_avoids (ic : bool) (r : regex) (q : ascii -> bool) (s : string) :
  (forall prev c s', q c = true ->
     exists rest, execAt ic r prev (String c s') = Some rest
                  /\ String.length rest <= String.length s') ->
  Forall (fun piece => Forall (fun c => q c = false) (chars piece)) (split ic r s).
Proof.
  intros Hq. unfold split. destruct s as [|c s].
  - destruct (execAt ic r None EmptyString); repeat constructor.
  - apply splitFrom_avoids; [exact Hq | constructor].
Qed.

Lemma separators_at_punctuation (prev : option ascii) (c : ascii) (s' : string) :
  punctuation c = true ->
  exists rest, execAt true separators prev (String c s') = Some rest
               /\ String.length rest <= String.length s'.
Proof.
  unfold punctuation. cbn [existsb]. rewrite !orb_true_iff, !Ascii.eqb_eq.
  intros [-> | [-> | [-> | [-> | [-> | H]]]]]; try discriminate;
    exists s'; (split; [|trivial]);
    unfold execAt, separators; simpl; destruct (isWordOpt prev); reflexivity.
Qed.

Lemma relatedSeparators_at_semicolon (prev : option ascii) (c : ascii) (s' : string) :
  Ascii.eqb c ";" = true ->
  exists rest, execAt true relatedSeparators prev (String c s') = Some rest
               /\ String.length rest <= String.length s'.
Proof.
  rewrite Ascii.eqb_eq. intros ->. exists s'. split; trivial.
  unfold execAt, relatedSeparators; simpl; destruct (isWordOpt prev); reflexivity.
Qed.

End Fragments.

(** X1: every instruction of a goal is already trimmed and is longer than
    three characters. *)
Theorem instructions_are_trimmed_and_long (input i : string) :
  In i (splitInstructions input) -> trim i = i /\ 3 < String.length i.
Proof.
  rewrite splitInstructions_filter. intros H. apply filter_In in H.
  destruct H as [Hin Hlong]. split; [|now apply longEnough_spec].
  unfold fragments in Hin. apply in_map_iff in Hin.
  destruct Hin as (piece & <- & _). apply trim_idem.
Qed.

(** X2: no instruction holds a period, a semicolon, a comma, a line feed
    or a carriage return. *)
Theorem instructions_hold_no_punctuation (input i : string) (c : ascii) :
  In i (splitInstructions input) ->
  In c (list_ascii_of_string i) ->
  ~ In c ["."; ";"; ","; "010"; "013"]%char.
Proof.
  rewrite splitInstructions_filter. intros H Hc. apply filter_In in H.
  destruct H as [Hin _]. unfold fragments in Hin. apply in_map_iff in Hin.
  destruct Hin as (piece & <- & Hpiece).
  pose proof (split_avoids true separators punctuation input separators_at_punctuation) as Hall.
  rewrite Forall_forall in Hall. specialize (Hall _ Hpiece).
  apply trim_chars in Hall. rewrite Forall_forall in Hall. specialize (Hall _ Hc).
  intros Hmem. unfold punctuation in Hall.
  assert (existsb (Ascii.eqb c) ["."; ";"; ","; "010"; "013"]%char = true) as E.
  { apply existsb_exists. exists c. split; trivial. apply Ascii.eqb_refl. }
  congruence.
Qed.

(** X3: every related action is non-empty, already trimmed, and holds no
    semicolon. *)
Theorem related_actions_are_trimmed (instruction a : string) :
  In a (splitRelatedActions instruction) ->
  a <> EmptyString /\ trim a = a /\ ~ In ";"%char (list_ascii_of_string a).
Proof.
  unfold splitRelatedActions. intros H. apply filter_In in H. destruct H as [Hin Hlen].
  apply in_map_iff in Hin. destruct Hin as (piece & <- & Hpiece).
  split; [|split].
  - intros E. rewrite E in Hlen. discriminate.
  - apply trim_idem.
  - pose proof (split_avoids true relatedSeparators (fun c => Ascii.eqb c ";") instruction
                  relatedSeparators_at_semicolon) as Hall.
    rewrite Forall_forall in Hall. specialize (Hall _ Hpiece).
    apply trim_chars in Hall. rewrite Forall_forall in Hall.
    intros Hmem. specialize (Hall _ Hmem). simpl in Hall. discriminate.
Qed.

(** ** Keywords *)

Section Patterns.

Lemma testFrom_alt (ic : bool) (r1 r2 : regex) (s : string) :
  forall prev,
    testFrom ic (r1 <|> r2) prev s = testFrom ic r1 prev s || testFrom ic r2 prev s.
Proof.
  induction s as [|c s IH]; intros prev; cbn [testFrom]; unfold execAt; cbn [matchAt];
    fold (execAt ic r1 prev); fold (execAt ic r2 prev).
  - destruct (matchAt ic r1 prev EmptyString _); [reflexivity|].
    now destruct (matchAt ic r2 prev EmptyString _).
  - destruct (matchAt ic r1 prev (String c s) _); [reflexivity|].
    destruct (matchAt ic r2 prev (String c s) _); [now rewrite orb_true_r | apply IH].
Qed.

Lemma test_alt (ic : bool) (r1 r2 : regex) (s : string) :
  test ic (r1 <|> r2) s = test ic r1 s || test ic r2 s.
Proof. apply testFrom_alt. Qed.

Lemma litMatch_prefix (l : string) :
  forall prev s,
    prefix l s = true <-> exists prev' s', litMatch false l prev s = Some (prev', s').
Proof.
  induction l as [|p l IH]; intros prev s.
  - destruct s; simpl; split; eauto.
  - destruct s as [|c s]; simpl.
    + split; [discriminate | intros (? & ? & ?); discriminate].
    + destruct (ascii_dec p c) as [->|Hne].
      * rewrite Ascii.eqb_refl. apply IH.
      * assert (Ascii.eqb p c = false) as -> by now apply Ascii.eqb_neq.
        split; [discriminate | intros (? & ? & ?); discriminate].
Qed.

Lemma litMatch_append (l : string) :
  forall prev s prev' s',
    litMatch false l prev s = Some (prev', s') -> s = (l ++ s')%string.
Proof.
  induction l as [|p l IH]; intros prev s prev' s'; simpl.
  - intros H. now injection H as _ <-.
  - destruct s as [|c s]; [discriminate|].
    destruct (Ascii.eqb p c) eqn:E; [|discriminate].
    apply Ascii.eqb_eq in E. subst c. intros H. f_equal. eapply IH; eauto.
Qed.

Lemma string_app_assoc (a b c : string) :
  (a ++ (b ++ c))%string = ((a ++ b) ++ c)%string.
Proof. induction a as [|x a IH]; simpl; [reflexivity | now rewrite IH]. Qed.

Lemma includes_prefix (s t : string) : prefix t s = true -> includes s t = true.
Proof. intros H. destruct s; cbn [includes]; now rewrite H. Qed.

Lemma includes_tail (c : ascii) (s t : string) :
  includes s t = true -> includes (String c s) t = true.
Proof. intros H. cbn [includes]. rewrite H. apply orb_true_r. Qed.

Lemma includes_append (pre s t : string) :
  includes s t = true -> includes (pre ++ s) t = true.
Proof.
  induction pre as [|c pre IH]; intros H; [exact H|].
  apply includes_tail. now apply IH.
Qed.

Lemma test_lit (l : string) (s : string) :
  forall prev, testFrom false (Lit l) prev s = includes s l.
Proof.
  induction s as [|c s IH]; intros prev; cbn [testFrom includes]; unfold execAt;
    cbn [matchAt].
  - destruct (prefix l EmptyString) eqn:P.
    + apply (litMatch_prefix l prev) in P. destruct P as (p' & s' & ->). reflexivity.
    + destruct (litMatch false l prev EmptyString) as [[p' s']|] eqn:E; [|reflexivity].
      assert (prefix l EmptyString = true) by (apply (litMatch_prefix l prev); eauto).
      congruence.
  - destruct (prefix l (String c s)) eqn:P.
    + apply (litMatch_prefix l prev) in P. destruct P as (p' & s' & ->). reflexivity.
    + destruct (litMatch false l prev (String c s)) as [[p' s']|] eqn:E; [|apply IH].
      assert (prefix l (String c s) = true) by (apply (litMatch_prefix l prev); eauto).
      congruence.
Qed.

Lemma starMatch_suffix (p : ascii -> bool) (k : option ascii -> string -> option string) :
  forall s prev rest,
    starMatch p k prev s = Some rest ->
    exists mid s2 prev2, s = (mid ++ s2)%string /\ k prev2 s2 = Some rest.
Proof.
  induction s as [|c s IH]; intros prev rest; cbn [starMatch].
  - intros H. exists EmptyString, EmptyString, prev. now split.
  - destruct (p c).
    + destruct (starMatch p k (Some c) s) as [r|] eqn:E.
      * intros H. injection H as ->.
        destruct (IH _ _ E) as (mid & s2 & prev2 & -> & Hk).
        exists (String c mid), s2, prev2. now split.
      * intros H. exists EmptyString, (String c s), prev. now split.
    + intros H. exists EmptyString, (String c s), prev. now split.
Qed.

(** Where [a.*b] matches, both words occur. *)
Lemma test_pair (a b : string) (s : string) :
  forall prev,
    testFrom false (a >> any >> b) prev s = true ->
    includes s a = true /\ includes s b = true.
Proof.
  assert (forall prev s rest,
             execAt false (a >> any >> b) prev s = Some rest ->
             includes s a = true /\ includes s b = true) as Hexec.
  { clear s. intros prev s rest. unfold execAt. cbn [matchAt].
    destruct (litMatch false a prev s) as [[p1 s1]|] eqn:E1; [|discriminate].
    intros H. apply starMatch_suffix in H.
    destruct H as (mid & s2 & prev2 & -> & Hk).
    destruct (litMatch false b prev2 s2) as [[p3 s3]|] eqn:E3; [|discriminate].
    pose proof (litMatch_append _ _ _ _ _ E1) as ->.
    split.
    - apply includes_prefix. apply (litMatch_prefix a prev). eauto.
    - rewrite string_app_assoc. apply includes_append, includes_prefix.
      apply (litMatch_prefix b prev2). eauto. }
  induction s as [|c s IH]; intros prev; cbn [testFrom].
  - destruct (execAt false (a >> any >> b) prev EmptyString) eqn:E; [|discriminate].
    intros _. eapply Hexec; eauto.
  - destruct (execAt false (a >> any >> b) prev (String c s)) eqn:E.
    + intros _. eapply Hexec; eauto.
    + intros H. destruct (IH _ H). split; now apply includes_tail.
Qed.

End Patterns.

Section Keywording.

Lemma prefix_append (t post : string) : prefix t (t ++ post) = true.
Proof.
  induction t as [|c t IH]; simpl; [now destruct post|].
  destruct (ascii_dec c c); [exact IH | congruence].
Qed.

Lemma includes_iff (s t : string) :
  includes s t = true <-> exists pre post, s = (pre ++ t ++ post)%string.
Proof.
  split.
  - induction s as [|c s IH]; cbn [includes]; rewrite orb_true_iff.
    + intros [P | F]; [|discriminate].
      apply (litMatch_prefix t None) in P. destruct P as (p' & s' & E).
      apply litMatch_append in E. exists EmptyString, s'. exact E.
    + intros [P | H].
      * apply (litMatch_prefix t None) in P. destruct P as (p' & s' & E).
        apply litMatch_append in E. exists EmptyString, s'. exact E.
      * destruct (IH H) as (pre & post & ->). now exists (String c pre), post.
  - intros (pre & post & ->). apply includes_append, includes_prefix, prefix_append.
Qed.

(** A text that holds a word holds every part of the word. *)
Lemma includes_part (s a b c : string) :
  includes s (a ++ b ++ c) = true -> includes s b = true.
Proof.
  rewrite !includes_iff. intros (pre & post & ->).
  exists (pre ++ a)%string, (c ++ post)%string.
  now rewrite <- !string_app_assoc.
Qed.

Ltac pairs l :=
  repeat match goal with
  | |- context [testFrom false (Lit ?a >> any >> Lit ?b) None l] =>
      let E := fresh "E" in
      destruct (testFrom false (Lit a >> any >> Lit b) None l) eqn:E;
      [apply test_pair in E; destruct E |]
  end.

Ltac words l :=
  repeat match goal with
  | |- context [includes l ?w] => destruct (includes l w) eqn:?
  end.

Lemma video_words (l : string) :
  test false Keywords.video l = anyOf l ["video"; "transcribe"].
Proof.
  unfold Keywords.video, test, anyOf. rewrite !testFrom_alt, !test_lit. cbn [existsb].
  pairs l; words l; simpl; congruence.
Qed.

Lemma image_words (l : string) :
  test false Keywords.image l = anyOf l ["image"; "chart"; "diagram"; "visual"].
Proof.
  unfold Keywords.image, test, anyOf. rewrite !testFrom_alt, !test_lit. cbn [existsb].
  pairs l; words l; simpl; congruence.
Qed.

Lemma text_words (l : string) :
  test false Keywords.text l = anyOf l ["text"; "summarize"].
Proof.
  unfold Keywords.text, test, anyOf. rewrite !testFrom_alt, !test_lit. cbn [existsb].
  pairs l; words l; simpl; congruence.
Qed.

Lemma impact_words (l : string) :
  test false Keywords.impact l = anyOf l ["impact"; "change"; "diff"].
Proof.
  unfold Keywords.impact, test, anyOf. rewrite !testFrom_alt, !test_lit. cbn [existsb].
  pose proof (includes_part l "" "diff" "erence") as Hd.
  words l; simpl in *; try reflexivity; now rewrite Hd.
Qed.

Lemma testing_words (l : string) :
  test false Keywords.testing l = anyOf l ["test"; "qa"].
Proof.
  unfold Keywords.testing, test, anyOf. rewrite !testFrom_alt, !test_lit. cbn [existsb].
  pose proof (includes_part l "" "test" " case") as H1.
  pose proof (includes_part l "unit " "test" "") as H2.
  words l; simpl in *; try reflexivity; first [now rewrite H1 | now rewrite H2].
Qed.


Lemma code_words (l : string) :
  test false Keywords.code l
  = anyOf l ["refactor"; "fix"; "bug"; "error"; "optimize"; "performance";
             "documentation"; "docs"; "comment"; "dead code"; "unused"; "log"]
    || test false convertPairs l.
Proof.
  unfold Keywords.code, convertPairs, test, anyOf.
  rewrite !testFrom_alt, !test_lit. cbn [existsb]. rewrite orb_false_r.
  pose proof (includes_part l "de" "bug" "") as H1.
  pose proof (includes_part l "" "log" "ging") as H2.
  simpl in H1, H2.
  apply Bool.eq_iff_eq_true. rewrite !orb_true_iff. tauto.
Qed.

(** Which tool each test of the inference adds. *)
Lemma inferTools_tests (instruction : string) :
  let l := toLowerCase instruction in
  let none :=
    negb (test false Keywords.video l) && negb (test false Keywords.image l)
    && negb (test false Keywords.code l) && negb (test false Keywords.text l)
    && negb (test false Keywords.impact l) && negb (test false Keywords.testing l) in
  inferTools instruction
  = (if test false Keywords.video l then [video_summarizer] else [])
    ++ (if test false Keywords.image l then [image_insights] else [])
    ++ (if test false Keywords.code l then [code_assistant] else [])
    ++ (if test false Keywords.text l || none then [ai_powered_search] else [])
    ++ (if test false Keywords.impact l then [impact_analyzer] else [])
    ++ (if test false Keywords.testing l then [test_support] else []).
Proof.
  unfold inferTools. cbv zeta.
  destruct (test false Keywords.video _), (test false Keywords.image _),
    (test false Keywords.code _), (test false Keywords.text _),
    (test false Keywords.impact _), (test false Keywords.testing _); reflexivity.
Qed.

End Keywording.

(** X4: the inferred tools are never none, never repeated, and always in
    the order of the tests of the inference. *)
Theorem inferTools_ordered (instruction : string) :
  inferTools instruction <> []
  /\ NoDup (inferTools instruction)
  /\ filter (toolsInclude (inferTools instruction)) toolOrder = inferTools instruction.
Proof.
  rewrite inferTools_tests. cbv zeta.
  destruct (test false Keywords.video _), (test false Keywords.image _),
    (test false Keywords.code _), (test false Keywords.text _),
    (test false Keywords.impact _), (test false Keywords.testing _);
    (split; [discriminate | split; [|reflexivity]]);
    repeat constructor; simpl; intuition discriminate.
Qed.

(** X5: the patterns of the inference as plain searches for words in the
    lower-cased instruction; the other alternatives of the patterns are
    redundant. *)
Theorem keywords_decide_tools (instruction : string) :
  let l := toLowerCase instruction in
  (In video_summarizer (inferTools instruction)
   <-> anyOf l ["video"; "transcribe"] = true)
  /\ (In image_insights (inferTools instruction)
      <-> anyOf l ["image"; "chart"; "diagram"; "visual"] = true)
  /\ (In code_assistant (inferTools instruction)
      <-> anyOf l ["refactor"; "fix"; "bug"; "error"; "optimize"; "performance";
                   "documentation"; "docs"; "comment"; "dead code"; "unused"; "log"] = true
          \/ test false convertPairs l = true)
  /\ (In impact_analyzer (inferTools instruction)
      <-> anyOf l ["impact"; "change"; "diff"] = true)
  /\ (In test_support (inferTools instruction)
      <-> anyOf l ["test"; "qa"] = true)
  /\ (In ai_powered_search (inferTools instruction)
      <-> anyOf l ["text"; "summarize"] = true
          \/ forall t, In t (inferTools instruction) -> t = ai_powered_search).
Proof.
  cbv zeta. rewrite inferTools_tests. cbv zeta.
  rewrite <- video_words, <- image_words, <- impact_words, <- testing_words,
    <- text_words, <- orb_true_iff, <- code_words.
  destruct (test false Keywords.video _), (test false Keywords.image _),
    (test false Keywords.code _), (test false Keywords.text _),
    (test false Keywords.impact _), (test false Keywords.testing _); simpl;
    repeat split; intros H; try tauto; try discriminate;
    try (intuition discriminate);
    try (destruct H as [H | H];
         [discriminate | specialize (H _ (or_introl eq_refl)); discriminate]).
  right. intros t [<- | []]. reflexivity.
Qed.

(** ** Where assignments come from *)

Section Passes.

Variable instructions : list string.
Variable pageTypes : list PageWithType.

(** How an iteration ends: with the result of the pass of its tier. *)
Lemma matchPage_found (its : list InstructionTools) (used : list string) (p : string)
    (a : Assignment) (tier : Tier) (used' : list string) :
  matchPage instructions its pageTypes used p = (a, tier, used') ->
  page a = p
  /\ match tier with
     | ExplicitMention =>
         explicitPass p (pageTypeOf pageTypes p) its = Some (instruction a, tool a)
         /\ truthy (instruction a) = true
     | ContentType =>
         exists u, contentPass (pageTypeOf pageTypes p) u its = Some (instruction a, tool a)
                   /\ truthy (instruction a) = true
     | FirstAvailable =>
         exists u, availablePass u its = Some (instruction a, tool a)
                   /\ truthy (instruction a) = true
     | Default =>
         instruction a = defaultInstruction instructions /\ tool a = ai_powered_search
     end.
Proof.
  unfold matchPage.
  set (pageType := pageTypeOf pageTypes p).
  pose (ok := fun m : Matched =>
    match m with
    | None => True
    | Some (i, t, ExplicitMention) => explicitPass p pageType its = Some (i, t)
    | Some (i, t, ContentType) => exists u, contentPass pageType u its = Some (i, t)
    | Some (i, t, FirstAvailable) => exists u, availablePass u its = Some (i, t)
    | Some (_, _, Default) => False
    end).
  destruct (record ExplicitMention _ None used) as [m1 u1] eqn:R1.
  assert (ok m1) as H1.
  { unfold record in R1. destruct (explicitPass p pageType its) as [[i t]|] eqn:E;
      injection R1 as <- <-; simpl; trivial. }
  destruct (if unmatched m1 then _ else (m1, u1)) as [m2 u2] eqn:R2.
  assert (ok m2) as H2.
  { destruct (unmatched m1); [|now injection R2 as <- <-].
    unfold record in R2. destruct (contentPass pageType u1 its) as [[i t]|] eqn:E;
      injection R2 as <- <-; simpl; eauto. }
  destruct (if unmatched m2 then _ else (m2, u2)) as [m3 u3] eqn:R3.
  assert (ok m3) as H3.
  { destruct (unmatched m2); [|now injection R3 as <- <-].
    unfold record in R3. destruct (availablePass u2 its) as [[i t]|] eqn:E;
      injection R3 as <- <-; simpl; eauto. }
  clear R1 R2 R3 H1 H2.
  destruct (unmatched m3) eqn:U.
  - intros H. injection H as <- <- <-. simpl. auto.
  - destruct m3 as [[[i t] tr]|]; [|discriminate].
    simpl in U. apply negb_false_iff in U.
    intros H. injection H as <- <- <-. simpl. split; [reflexivity|].
    destruct tr; simpl in H3; try contradiction; auto.
    + destruct H3 as (u & Hu). eauto.
    + destruct H3 as (u & Hu). eauto.
Qed.

Lemma explicitPass_analyse (p pageType : string) (i : string) (t : Tool) :
  forall l,
    explicitPass p pageType (analyse l) = Some (i, t) ->
    In i l /\ mentions i p = true /\ t = priorityTool pageType (inferTools i).
Proof.
  induction l as [|x l IH]; simpl; [discriminate|].
  destruct (mentions x p) eqn:M.
  - intros H. injection H as <- <-. auto.
  - intros H. destruct (IH H) as (? & ? & ?). auto.
Qed.

Lemma contentPass_analyse (pageType : string) (used : list string) (i : string) (t : Tool) :
  forall l,
    contentPass pageType used (analyse l) = Some (i, t) ->
    In i l /\ t = contentTool pageType i.
Proof.
  induction l as [|x l IH]; simpl; [discriminate|].
  destruct (has used x).
  - intros H. destruct (IH H). auto.
  - intros H. injection H as <- <-. auto.
Qed.

Lemma availablePass_analyse (used : list string) (i : string) (t : Tool) :
  forall l,
    availablePass used (analyse l) = Some (i, t) ->
    In i l /\ t = firstTool (inferTools i).
Proof.
  induction l as [|x l IH]; simpl; [discriminate|].
  destruct (has used x).
  - intros H. destruct (IH H). auto.
  - intros H. injection H as <- <-. auto.
Qed.

Lemma truthy_spec (s : string) : truthy s = true <-> s <> EmptyString.
Proof.
  unfold truthy. rewrite negb_true_iff. split.
  - intros E ->. discriminate.
  - intros Hne. destruct s; [congruence | reflexivity].
Qed.

Lemma defaultInstruction_origin :
  defaultInstruction instructions <> EmptyString
  /\ (In (defaultInstruction instructions) instructions
      \/ defaultInstruction instructions = "Analyze this content").
Proof.
  unfold defaultInstruction, orElse. destruct instructions as [|i rest].
  - split; [discriminate | now right].
  - destruct (truthy i) eqn:T.
    + split; [now apply truthy_spec | left; now left].
    + split; [discriminate | now right].
Qed.

(** Every entry of a run: where its instruction and its tool come from. *)
Lemma matchPages_origin (pages : list string) :
  forall used a tier,
    In (a, tier) (matchPages instructions (analyse instructions) pageTypes used pages) ->
    In (page a) pages
    /\ instruction a <> EmptyString
    /\ (In (instruction a) instructions \/ instruction a = "Analyze this content")
    /\ tool a = tierTool tier (pageTypeOf pageTypes (page a)) (instruction a).
Proof.
  induction pages as [|p rest IH]; intros used a tier; simpl; [tauto|].
  destruct (matchPage instructions (analyse instructions) pageTypes used p)
    as [[a0 tier0] used'] eqn:E.
  intros [H | H].
  - injection H as -> ->. destruct (matchPage_found _ _ _ _ _ _ E) as [Hp Ht].
    split; [now left|]. rewrite Hp. destruct tier; simpl.
    + destruct Ht as [Hx T]. apply explicitPass_analyse in Hx.
      destruct Hx as (? & ? & ?). apply truthy_spec in T. auto.
    + destruct Ht as (u & Hx & T). apply contentPass_analyse in Hx.
      destruct Hx. apply truthy_spec in T. auto.
    + destruct Ht as (u & Hx & T). apply availablePass_analyse in Hx.
      destruct Hx. apply truthy_spec in T. auto.
    + destruct Ht as [-> ->]. destruct defaultInstruction_origin. auto.
  - destruct (IH _ _ _ H) as (? & ? & ? & ?). auto.
Qed.

End Passes.

(** X6: the instruction of an assignment is not empty, and is one of the
    instructions or the default text. *)
Theorem assigned_instruction_origin
    (pageTypes : list PageWithType) (selectedPages instructions : list string)
    (a : Assignment) :
  In a (assign pageTypes selectedPages instructions) ->
  instruction a <> EmptyString
  /\ (In (instruction a) instructions \/ instruction a = "Analyze this content").
Proof.
  unfold assign, route. intros H. apply in_map_iff in H.
  destruct H as ([a' tier] & <- & H). simpl.
  destruct (matchPages_origin _ _ _ _ _ _ H) as (_ & ? & ? & _). auto.
Qed.

(** X7: the tool of an assignment is settled by its tier, the type of its
    page and the text of its instruction. *)
Theorem assigned_tool_by_tier
    (pageTypes : list PageWithType) (selectedPages instructions : list string)
    (a : Assignment) (tier : Tier) :
  In (a, tier) (route pageTypes selectedPages instructions) ->
  tool a = tierTool tier (pageTypeOf pageTypes (page a)) (instruction a).
Proof.
  unfold route. intros H.
  now destruct (matchPages_origin _ _ _ _ _ _ H) as (_ & _ & _ & ?).
Qed.

Section Order.

Variable instructions : list string.
Variable pageTypes : list PageWithType.

Lemma has_In (used : list string) (x : string) : has used x = true <-> In x used.
Proof.
  unfold has. rewrite existsb_exists. split.
  - intros (y & Hy & E). apply String.eqb_eq in E. now subst.
  - intros H. exists x. split; trivial. apply String.eqb_refl.
Qed.

Lemma has_add_iff (used : list string) (i x : string) :
  has (add used i) x = true <-> has used x = true \/ x = i.
Proof.
  unfold add. destruct (has used i) eqn:E.
  - split; [auto|]. intros [H | ->]; trivial.
  - unfold push. rewrite !has_In, in_app_iff. simpl. intuition.
Qed.

Lemma explicitPass_none (p pageType : string) :
  forall l,
    Forall (fun i => mentions i p = false) l ->
    explicitPass p pageType (analyse l) = None.
Proof.
  induction 1 as [|i l Hi _ IH]; simpl; [reflexivity|]. now rewrite Hi.
Qed.

Lemma explicitPass_first (p pageType : string) (i : string) (post : list string) :
  forall pre,
    Forall (fun j => mentions j p = false) pre ->
    mentions i p = true ->
    explicitPass p pageType (analyse (pre ++ i :: post))
    = Some (i, priorityTool pageType (inferTools i)).
Proof.
  induction 1 as [|j pre Hj _ IH]; intros Hi; simpl.
  - now rewrite Hi.
  - rewrite Hj. now apply IH.
Qed.

Lemma contentPass_skip (pageType : string) (used : list string) (todo : list string) :
  forall done,
    (forall x, In x done -> has used x = true) ->
    contentPass pageType used (analyse (done ++ todo))
    = contentPass pageType used (analyse todo).
Proof.
  induction done as [|d done IH]; intros Hd; simpl; [reflexivity|].
  rewrite (Hd d) by now left. apply IH. intros x Hx. apply Hd. now right.
Qed.

Lemma availablePass_skip (used : list string) (todo : list string) :
  forall done,
    (forall x, In x done -> has used x = true) ->
    availablePass used (analyse (done ++ todo)) = availablePass used (analyse todo).
Proof.
  induction done as [|d done IH]; intros Hd; simpl; [reflexivity|].
  rewrite (Hd d) by now left. apply IH. intros x Hx. apply Hd. now right.
Qed.

Lemma matchPage_explicit (its : list InstructionTools) (used : list string)
    (p i : string) (t : Tool) :
  explicitPass p (pageTypeOf pageTypes p) its = Some (i, t) ->
  i <> EmptyString ->
  matchPage instructions its pageTypes used p
  = (mkAssignment p i t, ExplicitMention, add used i).
Proof.
  intros E T. apply truthy_spec in T. unfold matchPage, record. rewrite E.
  unfold unmatched. repeat (rewrite ?T; cbn [negb]). reflexivity.
Qed.

Lemma matchPages_nth (its : list InstructionTools) (pages : list string) :
  forall used k p,
    nth_error pages k = Some p ->
    exists used_k,
      nth_error (matchPages instructions its pageTypes used pages) k
      = Some (fst (matchPage instructions its pageTypes used_k p)).
Proof.
  induction pages as [|q rest IH]; intros used k p; [now destruct k|].
  simpl. destruct (matchPage instructions its pageTypes used q) as [r used'] eqn:E.
  destruct k as [|k]; simpl.
  - intros H. injection H as ->. exists used. now rewrite E.
  - apply IH.
Qed.

Lemma matchPages_in_order (pages : list string) :
  NoDup instructions ->
  Forall (fun i => i <> EmptyString) instructions ->
  (forall i p, In i instructions -> In p pages -> mentions i p = false) ->
  forall done todo used,
    instructions = done ++ todo ->
    (forall x, has used x = true <-> In x done) ->
    matchPages instructions (analyse instructions) pageTypes used pages
    = inOrder pageTypes (defaultInstruction instructions) pages todo.
Proof.
  intros Hnd Hne. induction pages as [|p rest IH]; intros Hno done todo used Hsplit Hused;
    [reflexivity|].
  assert (explicitPass p (pageTypeOf pageTypes p) (analyse instructions) = None) as E1.
  { apply explicitPass_none. apply Forall_forall. intros i Hi. apply Hno; [trivial | now left]. }
  assert (forall i q, In i instructions -> In q rest -> mentions i q = false) as Hno'.
  { intros i q Hi Hq. apply Hno; [trivial | now right]. }
  assert (forall pt, contentPass pt used (analyse instructions)
                     = contentPass pt used (analyse todo)) as C.
  { intros pt. rewrite Hsplit. apply contentPass_skip. intros x Hx. now apply Hused. }
  assert (availablePass used (analyse instructions)
          = availablePass used (analyse todo)) as A.
  { rewrite Hsplit. apply availablePass_skip. intros x Hx. now apply Hused. }
  cbn [matchPages]. unfold matchPage, record. rewrite E1. cbn [unmatched]. rewrite C.
  destruct todo as [|i todo]; cbn [analyse map contentPass it_instruction it_tools].
  - rewrite A. cbn [analyse map availablePass unmatched inOrder]. f_equal.
    now apply (IH Hno' done []).
  - assert (has used i = false) as Hi.
    { destruct (has used i) eqn:E; trivial. apply Hused in E.
      rewrite Hsplit in Hnd. apply NoDup_remove_2 in Hnd.
      exfalso. apply Hnd. apply in_app_iff. now left. }
    rewrite Hi. cbn [unmatched].
    assert (truthy i = true) as T.
    { apply truthy_spec. rewrite Forall_forall in Hne. apply Hne.
      rewrite Hsplit. apply in_app_iff. right. now left. }
    repeat (cbn [unmatched negb]; rewrite ?T). cbn [inOrder]. unfold contentTool. f_equal.
    apply (IH Hno' (done ++ [i]) todo).
    + now rewrite <- app_assoc.
    + intros x. rewrite has_add_iff, Hused, in_app_iff. simpl. intuition.
Qed.

End Order.

(** X8: the first non-empty instruction that mentions a page is given to
    it by the first tier, wherever the page stands in the selection. *)
Theorem explicit_mention_wins
    (pageTypes : list PageWithType) (selectedPages pre post : list string)
    (i p : string) (k : nat) :
  nth_error selectedPages k = Some p ->
  Forall (fun j => mentions j p = false) pre ->
  mentions i p = true ->
  i <> EmptyString ->
  nth_error (route pageTypes selectedPages (pre ++ i :: post)) k
  = Some (mkAssignment p i (priorityTool (pageTypeOf pageTypes p) (inferTools i)),
          ExplicitMention).
Proof.
  intros Hk Hpre Hi Hne. unfold route.
  destruct (matchPages_nth (pre ++ i :: post) pageTypes
              (analyse (pre ++ i :: post)) selectedPages [] k p Hk) as (used_k & ->).
  rewrite (matchPage_explicit _ _ _ _ p i _ (explicitPass_first _ _ _ _ _ Hpre Hi) Hne).
  reflexivity.
Qed.

(** X9: when the instructions are distinct and non-empty and none names
    a selected page, the pages take them in order through the second tier,
    and the pages left over take the default. *)
Theorem unmentioned_pages_take_instructions_in_order
    (pageTypes : list PageWithType) (selectedPages instructions : list string) :
  NoDup instructions ->
  Forall (fun i => i <> EmptyString) instructions ->
  (forall i p, In i instructions -> In p selectedPages -> mentions i p = false) ->
  route pageTypes selectedPages instructions
  = inOrder pageTypes (defaultInstruction instructions) selectedPages instructions.
Proof.
  intros Hnd Hne Hno. unfold route.
  apply (matchPages_in_order instructions pageTypes selectedPages Hnd Hne Hno [] instructions);
    [reflexivity|].
  intros x. simpl. split; [discriminate | tauto].
Qed.

Lemma priorityTool_first (pageType : string) (tools : list Tool) (t : Tool) :
  t = impact_analyzer \/ t = test_support ->
  priorityTool pageType tools = t -> firstTool tools = t.
Proof.
  unfold priorityTool, firstTool. intros Ht.
  destruct (String.eqb pageType "video" && toolsInclude tools video_summarizer);
    [destruct Ht; congruence|].
  destruct (String.eqb pageType "image" && toolsInclude tools image_insights);
    [destruct Ht; congruence|].
  destruct (String.eqb pageType "code" && toolsInclude tools code_assistant);
    [destruct Ht; congruence|].
  destruct (String.eqb pageType "text" && toolsInclude tools ai_powered_search);
    [destruct Ht; congruence|].
  trivial.
Qed.

Lemma keywordOverride_keeps (pageType l : string) (best t : Tool) :
  t = impact_analyzer \/ t = test_support ->
  keywordOverride pageType l best = t -> best = t.
Proof.
  unfold keywordOverride. intros Ht.
  destruct (String.eqb pageType "image" && _); [destruct Ht; congruence|].
  destruct (String.eqb pageType "code" && _); [destruct Ht; congruence|].
  destruct (String.eqb pageType "video" && _); [destruct Ht; congruence|].
  trivial.
Qed.

Lemma tierTool_first (tier : Tier) (pageType instruction : string) (t : Tool) :
  t = impact_analyzer \/ t = test_support ->
  tierTool tier pageType instruction = t ->
  firstTool (inferTools instruction) = t.
Proof.
  intros Ht. destruct tier; simpl.
  - now apply priorityTool_first.
  - unfold contentTool. intros H. apply keywordOverride_keeps in H; trivial.
    now apply priorityTool_first in H.
  - trivial.
  - destruct Ht; congruence.
Qed.

(** X10: impact_analyzer and test_support are assigned only when they are
    the first inferred tool, that is when the instruction has no video,
    image, code or text keyword. *)
Theorem special_tool_only_when_first_inferred
    (pageTypes : list PageWithType) (selectedPages instructions : list string)
    (a : Assignment) :
  In a (assign pageTypes selectedPages instructions) ->
  (tool a = impact_analyzer ->
   inferTools (instruction a) = [impact_analyzer]
   \/ inferTools (instruction a) = [impact_analyzer; test_support])
  /\ (tool a = test_support -> inferTools (instruction a) = [test_support]).
Proof.
  unfold assign, route. intros H. apply in_map_iff in H.
  destruct H as ([a' tier] & <- & H). simpl.
  destruct (matchPages_origin _ _ _ _ _ _ H) as (_ & _ & _ & Htool).
  split; intros E; rewrite E in Htool; symmetry in Htool;
    apply tierTool_first in Htool; auto;
    revert Htool; rewrite inferTools_tests; cbv zeta;
    destruct (test false Keywords.video _), (test false Keywords.image _),
      (test false Keywords.code _), (test false Keywords.text _),
      (test false Keywords.impact _), (test false Keywords.testing _);
    simpl; intros; try discriminate; auto.
Qed.

(** ** How a run ends *)

Section Strictness.

Context {A B : Type}.

Lemma strict_ret (a : A) : strict (ret a).
Proof.
  intros events. exists []. simpl. rewrite app_nil_r. split; [reflexivity | discriminate].
Qed.

Lemma strict_invoke (c : Call) (answer : list Event -> option A) : strict (invoke c answer).
Proof.
  intros events. unfold invoke, push. eexists. simpl. split; [reflexivity|].
  intros ->. now constructor.
Qed.

Lemma strict_bind (m : M A) (f : A -> M B) :
  strict m -> (forall a, strict (f a)) -> strict (bind m f).
Proof.
  intros Hm Hf events. unfold bind.
  destruct (Hm events) as (new1 & E1 & R1).
  destruct (m events) as [[a|] events1]; simpl in *; subst events1.
  - destruct (Hf a (events ++ new1)) as (new2 & E2 & R2).
    exists (new1 ++ new2). rewrite E2, app_assoc. split; [reflexivity|].
    intros Hnone. apply Exists_app. right. now apply R2.
  - exists new1. split; [reflexivity|]. intros _. now apply R1.
Qed.

Lemma strict_all (ms : list (M A)) : Forall strict ms -> strict (all ms).
Proof.
  induction 1 as [|m rest Hm _ IH]; intros events; simpl.
  - exists []. simpl. rewrite app_nil_r. split; [reflexivity | discriminate].
  - destruct (Hm events) as (new1 & E1 & R1).
    destruct (m events) as [r events1]; simpl in *; subst events1.
    destruct (IH (events ++ new1)) as (new2 & E2 & R2).
    destruct (all rest (events ++ new1)) as [rs events2]; simpl in *; subst events2.
    exists (new1 ++ new2). rewrite app_assoc. split; [reflexivity|].
    intros Hnone. apply Exists_app. destruct r as [a|]; [|left; now apply R1].
    destruct rs; [discriminate | right; now apply R2].
Qed.

Lemma strict_all_map {X : Type} (f : X -> M A) (xs : list X) :
  (forall x, strict (f x)) -> strict (all (map f xs)).
Proof.
  intros Hf. apply strict_all. apply Forall_forall.
  intros m Hin. apply in_map_iff in Hin. destruct Hin as (x & <- & _). apply Hf.
Qed.

(** A pure continuation adds no event. *)
Lemma snd_bind_pure (m : M A) (f : A -> M B) (events : list Event) :
  (forall a ev, snd (f a ev) = ev) -> snd (bind m f events) = snd (m events).
Proof.
  intros Hf. unfold bind. destruct (m events) as [[a|] ev]; simpl; [apply Hf | reflexivity].
Qed.

End Strictness.

Ltac strictly :=
  repeat first
    [ apply strict_ret
    | apply strict_invoke
    | apply strict_all_map; intros ?
    | apply strict_bind; [|intros ?] ].

Section Runs.

Context {ImpactResult : Type}.
Variable ext : Externals.
Variable api : Api ImpactResult.

Lemma runActions_strict (space page detectedCode : string) (actions : list string) :
  forall o, strict (runActions ImpactResult api space page detectedCode actions o).
Proof.
  induction actions as [|action rest IH]; intros o; simpl.
  - apply strict_ret.
  - apply strict_bind; [apply strict_invoke|]. intros result. apply IH.
Qed.

Lemma dispatch_strict (space : string) (a : Assignment) (audit : Audit) :
  strict (dispatch ext api space a audit).
Proof.
  unfold dispatch, viaSearch, callSearch, callCodeAssistant, callGetImages,
    callImageSummary, callVideoSummarizer.
  destruct (tool a).
  - strictly.
  - apply strict_bind; [strictly|]. intros images.
    apply strict_bind; [|intros; strictly].
    destruct (0 <? List.length images); strictly.
  - apply strict_bind; [strictly|]. intros initialResult.
    apply strict_bind; [apply runActions_strict|]. intros; strictly.
  - strictly.
  - strictly.
  - strictly.
Qed.

Lemma twoPageTools_strict (space goal : string) (selectedPages instructions : list string)
    (audit : Audit) :
  strict (twoPageTools api space goal selectedPages instructions audit).
Proof.
  unfold twoPageTools, callImpactAnalyzer, callTestSupport.
  destruct selectedPages as [|first [|second [|third rest]]]; try apply strict_ret.
  apply strict_bind.
  - destruct (existsb (test true Keywords.impactGate) instructions); strictly.
  - intros [impactAnalyzerResult audit1]. apply strict_bind.
    + destruct (existsb (test true Keywords.testGate) instructions); strictly.
    + intros [testStrategyResult audit2]. apply strict_ret.
Qed.

(** The loop stops at a rejected promise or at a page named like an
    inherited property, and not otherwise. *)
Lemma dispatchAll_outcome (space : string) (assignments : list Assignment) :
  forall pageResults audit events,
    exists new,
      snd (dispatchAll ext api space assignments pageResults audit events) = events ++ new
      /\ match fst (dispatchAll ext api space assignments pageResults audit events) with
         | None =>
             Exists (fun e => resolved e = false) new
             \/ Exists (fun a => inherited (page a) = true) assignments
         | Some (pageResults', _) =>
             Forall (fun a => inherited (page a) = false) assignments
             /\ (pageResults <> [] \/ assignments <> [] -> pageResults' <> [])
         end.
Proof.
  induction assignments as [|a rest IH]; intros pageResults audit events.
  - exists []. simpl. rewrite app_nil_r. split; [reflexivity|]. split; [constructor|].
    intros [H | H]; [exact H | congruence].
  - cbn [dispatchAll]. unfold bind.
    destruct (dispatch_strict space a audit events) as (new1 & E1 & R1).
    destruct (dispatch ext api space a audit events) as [[[r audit1]|] events1];
      simpl in E1, R1; subst events1.
    + destruct (inherited (page a)) eqn:I.
      * exists new1. simpl. split; [reflexivity|]. right. now constructor.
      * destruct (IH (pushResult pageResults (page a) r) audit1 (events ++ new1))
          as (new2 & E2 & O2).
        exists (new1 ++ new2). rewrite E2, app_assoc. split; [reflexivity|].
        destruct (fst (dispatchAll ext api space rest _ audit1 (events ++ new1)))
          as [[pr' au']|].
        -- destruct O2 as [Hall Hne]. split; [now constructor|].
           intros _. apply Hne. left. destruct pageResults as [|[q rs] tl]; simpl;
             [discriminate|]. destruct (String.eqb q (page a)); discriminate.
        -- destruct O2 as [O2 | O2]; [left; apply Exists_app; now right|].
           right. now constructor.
    + exists new1. simpl. split; [reflexivity|]. left. now apply R1.
Qed.


Lemma twoPageTools_shape (i : Inputs) (instructions : list string) (audit : Audit) :
  forall events,
    exists special impact testing,
      snd (twoPageTools api (selectedSpace i) (goal i) (selectedPages i)
             instructions audit events) = events ++ special
      /\ map call special = specialCalls i impact testing
      /\ (impact = true -> existsb (test true Keywords.impactGate) instructions = true)
      /\ (testing = true -> existsb (test true Keywords.testGate) instructions = true).
Proof.
  intros events. unfold twoPageTools, specialCalls, callImpactAnalyzer, callTestSupport.
  destruct (selectedPages i) as [|first [|second [|third rest]]];
    try (exists [], false, false; simpl; rewrite app_nil_r; repeat split; discriminate).
  unfold bind, invoke, ret, push.
  destruct (existsb (test true Keywords.impactGate) instructions) eqn:GI;
    destruct (existsb (test true Keywords.testGate) instructions) eqn:GT;
    cbn [fst snd].
  - destruct (impactAnalyzer ImpactResult api events _ _ _ _) as [res|]; cbn [fst snd isSome].
    + destruct (testSupport ImpactResult api _ _ _ _ _) as [res'|]; cbn [fst snd isSome];
        eexists [_; _], true, true; rewrite <- app_assoc; repeat split; try discriminate.
    + eexists [_], true, false. repeat split; try discriminate.
  - destruct (impactAnalyzer ImpactResult api events _ _ _ _) as [res|]; cbn [fst snd isSome];
      eexists [_], true, false; repeat split; try discriminate.
  - destruct (testSupport ImpactResult api _ _ _ _ _) as [res'|]; cbn [fst snd isSome];
      eexists [_], false, true; repeat split; try discriminate.
  - exists [], false, false. rewrite app_nil_r. repeat split; try discriminate.
Qed.

(** A run, whole: the events of the loop, then those of the two-page
    block, and how it can end. *)
Lemma orchestrate_outcome (i : Inputs) :
  exists loop special impact testing,
    snd (orchestrate ext api i []) = loop ++ special
    /\ Forall perPage loop
    /\ map call special = specialCalls i impact testing
    /\ (impact = true ->
        existsb (test true Keywords.impactGate) (splitInstructions (goal i)) = true)
    /\ (testing = true ->
        existsb (test true Keywords.testGate) (splitInstructions (goal i)) = true)
    /\ match fst (orchestrate ext api i []) with
       | Some (instructions, pageTabs, tabs) =>
           Forall (fun p => inherited p = false) (selectedPages i)
           /\ (selectedPages i <> [] ->
               List.length pageTabs = 1
               /\ map tab_id tabs = ["per-page-results"; "reasoning"; "selected-pages"])
       | None =>
           Exists (fun e => resolved e = false) (snd (orchestrate ext api i []))
           \/ Exists (fun p => inherited p = true) (selectedPages i)
       end.
Proof.
  unfold orchestrate.
  set (instructions := splitInstructions (goal i)).
  set (assignments := assign (pageTypes i) (selectedPages i) instructions).
  assert (map page assignments = selectedPages i) as Hpages.
  { unfold assignments, assign, route. rewrite map_map. apply matchPages_pages. }
  destruct (dispatchAll_emits ext api (selectedSpace i) assignments [] (mkAudit [] [] []) [])
    as (loop & EL & PL & _).
  destruct (dispatchAll_outcome (selectedSpace i) assignments [] (mkAudit [] [] []) [])
    as (loop' & EL' & OL).
  rewrite EL in EL'. apply app_inv_head in EL'. subst loop'. simpl in EL.
  unfold bind.
  destruct (dispatchAll ext api (selectedSpace i) assignments [] (mkAudit [] [] []) [])
    as [[[pageResults audit]|] events1]; simpl in EL, OL; subst events1.
  - destruct OL as [Hin Hne].
    destruct (twoPageTools_shape i instructions audit loop)
      as (special & impact & testing & ES & MS & GI & GT).
    destruct (twoPageTools_strict (selectedSpace i) (goal i) (selectedPages i)
                instructions audit loop) as (special' & ES' & RS).
    rewrite ES in ES'. apply app_inv_head in ES'. subst special'.
    exists loop, special, impact, testing.
    destruct (twoPageTools api (selectedSpace i) (goal i) (selectedPages i)
                instructions audit loop)
      as [[[[impactAnalyzerResult testStrategyResult] audit']|] events2];
      simpl in ES, RS; subst events2; simpl; repeat split; trivial.
    + rewrite <- Hpages. rewrite Forall_map. exact Hin.
    + unfold pageTabsOf.
      assert (pageResults <> []) as Hpr.
      { apply Hne. right. intros E. rewrite E in Hpages. simpl in Hpages. congruence. }
      destruct pageResults; [congruence | reflexivity].
    + unfold pageTabsOf.
      assert (pageResults <> []) as Hpr.
      { apply Hne. right. intros E. rewrite E in Hpages. simpl in Hpages. congruence. }
      destruct pageResults; [congruence | reflexivity].
    + left. apply Exists_app. right. now apply RS.
  - exists loop, [], false, false. simpl. rewrite app_nil_r.
    repeat split; trivial; try discriminate.
    + unfold specialCalls. now destruct (selectedPages i) as [|? [|? [|? ?]]].
    + destruct OL as [OL | OL]; [now left | right].
      rewrite <- Hpages. now rewrite Exists_map.
Qed.


Lemma validated_check (i : Inputs) :
  validated i <->
  negb (truthy (trim (goal i))) || negb (truthy (selectedSpace i))
  || (List.length (selectedPages i) =? 0) = false.
Proof.
  unfold validated. rewrite !orb_false_iff, !negb_false_iff, !truthy_spec, Nat.eqb_neq.
  split.
  - intros (Hg & Hs & Hp). repeat split; trivial. now destruct (selectedPages i).
  - intros ((Hg & Hs) & Hp). repeat split; trivial. intros E. now rewrite E in Hp.
Qed.

Lemma no_special_calls (i : Inputs) : specialCalls i false false = [].
Proof. unfold specialCalls. now destruct (selectedPages i) as [|? [|? [|? ?]]]. Qed.

Lemma dispatch_in_place (space : string) (a : Assignment) (audit : Audit) :
  emits (fun e => callSpace (call e) = space /\ callPages (call e) = [page a])
        (dispatch ext api space a audit).
Proof.
  assert (forall actions detectedCode o,
             emits (fun e => callSpace (call e) = space /\ callPages (call e) = [page a])
                   (runActions ImpactResult api space (page a) detectedCode actions o))
    as Hactions.
  { induction actions as [|action rest IH]; intros detectedCode o; simpl.
    - apply emits_ret.
    - apply emits_bind; [unfold callCodeAssistant; emit|]. intros result. apply IH. }
  unfold dispatch, viaSearch, callSearch, callCodeAssistant, callGetImages,
    callImageSummary, callVideoSummarizer.
  destruct (tool a).
  - emit.
  - apply emits_bind; [emit|]. intros images.
    apply emits_bind; [|intros; emit].
    destruct (0 <? List.length images); emit.
  - apply emits_bind; [emit|]. intros initialResult.
    apply emits_bind; [apply Hactions|]. intros; emit.
  - emit.
  - emit.
  - emit.
Qed.

Lemma dispatchAll_in_place (space : string) (assignments : list Assignment) :
  forall pageResults audit,
    emits (fun e => callSpace (call e) = space
                    /\ incl (callPages (call e)) (map page assignments))
          (dispatchAll ext api space assignments pageResults audit).
Proof.
  induction assignments as [|a rest IH]; intros pageResults audit; simpl.
  - apply emits_ret.
  - apply emits_bind.
    + eapply emits_weaken; [|apply dispatch_in_place].
      intros e [Hs Hp]. split; trivial. rewrite Hp. intros x [<- | []]. now left.
    + intros [r audit']. destruct (inherited (page a)); [apply emits_throw|].
      eapply emits_weaken; [|apply IH].
      intros e [Hs Hp]. split; trivial. intros x Hx. right. now apply Hp.
Qed.

Lemma twoPageTools_in_place (space goal : string) (selectedPages instructions : list string)
    (audit : Audit) :
  emits (fun e => callSpace (call e) = space /\ incl (callPages (call e)) selectedPages)
        (twoPageTools api space goal selectedPages instructions audit).
Proof.
  unfold twoPageTools, callImpactAnalyzer, callTestSupport.
  destruct selectedPages as [|first [|second [|third rest]]]; try apply emits_ret.
  apply emits_bind.
  - destruct (existsb (test true Keywords.impactGate) instructions); emit.
    split; [reflexivity | apply incl_refl].
  - intros [impactAnalyzerResult audit1]. apply emits_bind.
    + destruct (existsb (test true Keywords.testGate) instructions); emit.
      split; [reflexivity | apply incl_refl].
    + intros [testStrategyResult audit2]. apply emits_ret.
Qed.

End Runs.

Section Outcomes.

Context {ImpactResult : Type}.
Variable ext : Externals.
Variable api : Api ImpactResult.

(** X11: every call of a submission names the selected space and only
    selected pages. *)
Theorem calls_stay_in_selection (i : Inputs) (v : View ImpactResult) :
  Forall (fun e => callSpace (call e) = selectedSpace i
                   /\ incl (callPages (call e)) (selectedPages i))
         (snd (handleGoalSubmit ext api i v)).
Proof.
  unfold handleGoalSubmit.
  destruct (negb (truthy (trim (goal i))) || negb (truthy (selectedSpace i))
            || (List.length (selectedPages i) =? 0)); [constructor|].
  assert (emits (fun e => callSpace (call e) = selectedSpace i
                          /\ incl (callPages (call e)) (selectedPages i))
                (orchestrate ext api i)) as H.
  { unfold orchestrate. apply emits_bind.
    - eapply emits_weaken; [|apply dispatchAll_in_place].
      intros e [Hs Hp]. split; trivial.
      unfold assign, route in Hp. rewrite map_map, matchPages_pages in Hp. exact Hp.
    - intros [pageResults audit]. apply emits_bind; [apply twoPageTools_in_place|].
      intros [[impactAnalyzerResult testStrategyResult] audit']. apply emits_ret. }
  destruct (H []) as (new & E & Hall & _).
  destruct (orchestrate ext api i []) as [outcome events]. simpl in *. now subst events.
Qed.

(** X12: the calls of a submission are those of the per-page loop, then at
    most one call of the impact analyzer, then at most one of the test
    support, with the two pages in selection order and the whole goal. *)
Theorem special_calls_come_last (i : Inputs) (v : View ImpactResult) :
  exists loop special impact testing,
    snd (handleGoalSubmit ext api i v) = loop ++ special
    /\ Forall (fun e => perPageCall (call e) = true) loop
    /\ map call special = specialCalls i impact testing
    /\ (impact = true ->
        existsb (test true Keywords.impactGate) (splitInstructions (goal i)) = true)
    /\ (testing = true ->
        existsb (test true Keywords.testGate) (splitInstructions (goal i)) = true).
Proof.
  unfold handleGoalSubmit.
  destruct (negb (truthy (trim (goal i))) || negb (truthy (selectedSpace i))
            || (List.length (selectedPages i) =? 0)).
  - exists [], [], false, false. simpl. rewrite no_special_calls.
    repeat split; try constructor; discriminate.
  - destruct (orchestrate_outcome ext api i)
      as (loop & special & impact & testing & E & HL & HS & GI & GT & _).
    exists loop, special, impact, testing.
    destruct (orchestrate ext api i []) as [outcome events]. simpl in *. auto.
Qed.

(** X13: a submission that ends without error was validated, had every
    call resolved and no page named like an inherited property, shows the
    three tabs with the per-page results in front, and has put one entry,
    with these tabs, at the head of the history. *)
Theorem successful_run_shape (i : Inputs) (v : View ImpactResult) :
  error (fst (handleGoalSubmit ext api i v)) = EmptyString ->
  validated i
  /\ Forall (fun e => resolved e = true) (snd (handleGoalSubmit ext api i v))
  /\ Forall (fun p => inherited p = false) (selectedPages i)
  /\ map tab_id (outputTabs (fst (handleGoalSubmit ext api i v)))
     = ["per-page-results"; "reasoning"; "selected-pages"]
  /\ activeTab (fst (handleGoalSubmit ext api i v)) = "per-page-results"
  /\ history (fst (handleGoalSubmit ext api i v))
     = mkEntry (goal i) (outputTabs (fst (handleGoalSubmit ext api i v)))
               (selectedSpace i) (selectedPages i) :: history v.
Proof.
  unfold handleGoalSubmit.
  destruct (negb (truthy (trim (goal i))) || negb (truthy (selectedSpace i))
            || (List.length (selectedPages i) =? 0)) eqn:C; [discriminate|].
  apply validated_check in C.
  destruct (orchestrate_outcome ext api i) as (_ & _ & _ & _ & _ & _ & _ & _ & _ & O).
  destruct (orchestrate_emits ext api i []) as (new & E & _ & R).
  destruct (orchestrate ext api i []) as [[[[instructions pageTabs] tabs]|] events];
    simpl in *; [|discriminate].
  intros _. subst events. destruct O as [Hin Htabs].
  destruct (Htabs (proj2 (proj2 C))) as [Hlen Hids].
  repeat split; trivial; try apply C.
  - apply R. discriminate.
  - destruct pageTabs; [discriminate | reflexivity].
Qed.

(** X14: a submission that ends with an error leaves the history as it
    was. *)
Theorem failed_run_keeps_history (i : Inputs) (v : View ImpactResult) :
  error (fst (handleGoalSubmit ext api i v)) <> EmptyString ->
  history (fst (handleGoalSubmit ext api i v)) = history v.
Proof.
  unfold handleGoalSubmit.
  destruct (negb (truthy (trim (goal i))) || negb (truthy (selectedSpace i))
            || (List.length (selectedPages i) =? 0)); [reflexivity|].
  destruct (orchestrate ext api i []) as [[[[instructions pageTabs] tabs]|] events];
    simpl; [congruence | reflexivity].
Qed.

(** X15: a validated run fails exactly when a call was rejected or a
    selected page is named like a property that every object inherits. *)
Theorem run_fails_iff (i : Inputs) (v : View ImpactResult) :
  validated i ->
  (error (fst (handleGoalSubmit ext api i v)) = "An error occurred during orchestration."
   <-> Exists (fun e => resolved e = false) (snd (handleGoalSubmit ext api i v))
       \/ Exists (fun p => inherited p = true) (selectedPages i)).
Proof.
  intros V. apply validated_check in V. unfold handleGoalSubmit. rewrite V.
  destruct (orchestrate_outcome ext api i) as (_ & _ & _ & _ & _ & _ & _ & _ & _ & O).
  destruct (orchestrate_emits ext api i []) as (new & E & _ & R).
  destruct (orchestrate ext api i []) as [[[[instructions pageTabs] tabs]|] events];
    simpl in *; subst events.
  - destruct O as [Hin _]. split; [discriminate|]. intros [H | H]; exfalso.
    + apply Exists_exists in H. destruct H as (e & He & Hr).
      assert (resolved e = true) as Hr'.
      { clear Hr. revert e He. apply Forall_forall. apply R. discriminate. }
      congruence.
    + apply Exists_exists in H. destruct H as (p & Hp & Hi).
      rewrite Forall_forall in Hin. rewrite (Hin p Hp) in Hi. discriminate.
  - split; [intros _; exact O | reflexivity].
Qed.

End Outcomes.

(** ** Follow-up, history and selection *)

Section FollowUpFacts.

Context {ImpactResult : Type}.
Variable ext : Externals.
Variable api : Api ImpactResult.

Lemma map_without_qa (updatedQA : string) (tabs : list (OutputTab ImpactResult)) :
  Forall (fun t => tab_id t <> "qa") tabs ->
  map (fun tab => if String.eqb (tab_id tab) "qa"
                  then mkTab (tab_id tab) (label tab) updatedQA (results tab)
                  else tab) tabs = tabs.
Proof.
  induction 1 as [|t tabs Ht _ IH]; simpl; [reflexivity|].
  rewrite IH. apply String.eqb_neq in Ht. now rewrite Ht.
Qed.

Lemma handleGoalSubmit_no_qa (i : Inputs) (v : View ImpactResult) :
  validated i ->
  Forall (fun t => tab_id t <> "qa") (outputTabs (fst (handleGoalSubmit ext api i v))).
Proof.
  intros V. pose proof V as (_ & _ & Hp). apply validated_check in V.
  unfold handleGoalSubmit. rewrite V.
  destruct (orchestrate_outcome ext api i) as (_ & _ & _ & _ & _ & _ & _ & _ & _ & O).
  destruct (orchestrate ext api i []) as [[[[instructions pageTabs] tabs]|] events];
    simpl in *; [|constructor].
  destruct O as [_ O]. destruct (O Hp) as [_ Hids].
  apply Forall_forall. intros t Ht E.
  assert (In (tab_id t) (map tab_id tabs)) as Hin by now apply in_map.
  rewrite Hids, E in Hin. simpl in Hin. intuition discriminate.
Qed.

(** X16: after a validated submission a follow-up question is sent to the
    search collaborator, and the output tabs stay as they were: no tab has
    the id [qa]. *)
Theorem follow_up_after_run_is_dropped (i : Inputs) (v : View ImpactResult)
    (question : string) :
  validated i ->
  trim question <> EmptyString ->
  let r := fst (handleGoalSubmit ext api i v) in
  outputTabs (fst (fst (handleFollowUp api i question r))) = outputTabs r
  /\ map call (snd (handleFollowUp api i question r))
     = [Search (selectedSpace i) (selectedPages i) question].
Proof.
  intros V Q r. pose proof (handleGoalSubmit_no_qa i v V) as Hqa. fold r in Hqa.
  unfold handleFollowUp.
  assert (negb (truthy (trim question)) || negb (truthy (selectedSpace i))
          || (List.length (selectedPages i) =? 0) = false) as ->.
  { apply truthy_spec in Q. rewrite Q. apply validated_check in V.
    apply orb_false_iff in V. destruct V as [V1 V2].
    apply orb_false_iff in V1. destruct V1 as [_ V1]. now rewrite V1, V2. }
  unfold callSearch, invoke, push. simpl.
  destruct (search ImpactResult api [] (selectedSpace i) (selectedPages i) question);
    simpl; split; trivial.
  now apply map_without_qa.
Qed.

(** X17: a follow-up keeps the tabs' number, ids, labels and results, and
    makes no call or one search call over all the selected pages. *)
Theorem follow_up_keeps_tab_frame (i : Inputs) (v : View ImpactResult) (question : string) :
  let f := handleFollowUp api i question v in
  map tab_id (outputTabs (fst (fst f))) = map tab_id (outputTabs v)
  /\ map label (outputTabs (fst (fst f))) = map label (outputTabs v)
  /\ map results (outputTabs (fst (fst f))) = map results (outputTabs v)
  /\ (snd f = []
      \/ exists fate,
           snd f = [mkEvent (Search (selectedSpace i) (selectedPages i) question) fate]).
Proof.
  unfold handleFollowUp.
  destruct (negb (truthy (trim question)) || negb (truthy (selectedSpace i))
            || (List.length (selectedPages i) =? 0)); simpl; [now auto|].
  unfold callSearch, invoke, push. simpl.
  destruct (search ImpactResult api [] (selectedSpace i) (selectedPages i) question);
    simpl; repeat split; eauto;
    rewrite map_map; apply map_ext; intros t; now destruct (String.eqb (tab_id t) "qa").
Qed.

(** X18: [goToLatest] loads the newest entry, also when an older entry has
    the same identifier, and keeps the history. *)
Theorem go_to_latest_loads_newest
    (id : string) (ids : list string) (e : HistoryEntry ImpactResult)
    (i : Inputs) (v : View ImpactResult) (older : list (HistoryEntry ImpactResult)) :
  history v = e :: older ->
  let r := goToLatest (id :: ids) i v in
  goal (fst r) = h_goal e
  /\ selectedSpace (fst r) = h_selectedSpace e
  /\ selectedPages (fst r) = h_selectedPages e
  /\ outputTabs (snd r) = h_outputTabs e
  /\ currentHistoryId (snd r) = Some id
  /\ history (snd r) = history v.
Proof.
  intros H. unfold goToLatest, loadHistoryEntry, findEntry. rewrite H. simpl.
  rewrite String.eqb_refl. simpl. repeat split. now rewrite H.
Qed.

(** X19: loading an identifier that no entry has changes nothing. *)
Theorem unknown_history_id_changes_nothing
    (ids : list string) (historyId : string) (i : Inputs) (v : View ImpactResult) :
  ~ In historyId ids ->
  loadHistoryEntry ids historyId i v = (i, v).
Proof.
  intros Hno. unfold loadHistoryEntry, findEntry.
  assert (find (fun h => String.eqb (fst h) historyId) (combine ids (history v)) = None) as ->;
    [|reflexivity].
  generalize (history v). induction ids as [|x ids IH]; intros entries; [reflexivity|].
  destruct entries as [|e entries]; [reflexivity|]. simpl.
  destruct (String.eqb x historyId) eqn:E.
  - apply String.eqb_eq in E. exfalso. apply Hno. now left.
  - apply IH. intros Hin. apply Hno. now right.
Qed.

End FollowUpFacts.

(** X20: with some page listed, the flag that the toggle sets is the one
    the effect computes. *)
Theorem toggle_agrees_with_sync (s : Selection) :
  listed s <> [] ->
  syncSelectAll (toggleSelectAllPages s) = toggleSelectAllPages s.
Proof.
  intros Hne. unfold syncSelectAll, toggleSelectAllPages. simpl. f_equal.
  destruct (listed s) as [|p rest]; [congruence|].
  destruct (selectAllPages s); simpl; [reflexivity|]. now rewrite Nat.eqb_refl.
Qed.

(** X21: checking and then unchecking a page that was not selected gives
    the selection back; an unchecked page is not selected. *)
Theorem check_then_uncheck (p : string) (s : Selection) :
  ~ In p (chosen s) ->
  checkPage p false (checkPage p true s) = s
  /\ forall t, ~ In p (chosen (checkPage p false t)).
Proof.
  intros Hno. split.
  - destruct s as [l c a]. unfold checkPage. simpl in *. f_equal.
    rewrite filter_app. simpl. rewrite String.eqb_refl. simpl. rewrite app_nil_r.
    induction c as [|q c IH]; simpl; [reflexivity|].
    destruct (String.eqb q p) eqn:E.
    + apply String.eqb_eq in E. exfalso. apply Hno. now left.
    + simpl. f_equal. apply IH. intros H. apply Hno. now right.
  - intros t H. simpl in H. apply filter_In in H. destruct H as [_ H].
    now rewrite String.eqb_refl in H.
Qed.

(** ** The voice recorder *)

Module VoiceFacts.
Import Voice.

Lemma step_calm (h : Host) (s : State) (a : Action) :
  calm s -> calm (fst (step h s a)).
Proof.
  unfold calm. destruct a; simpl; trivial; try discriminate;
    unfold handleConfirm, handleMicClick.
  - destruct (supported h); simpl; trivial.
  - destruct (pendingTranscript s) as [p|];
      [destruct (confirmed && truthy p)|]; simpl; trivial;
      destruct (supported h); simpl; trivial.
Qed.

Lemma run_calm (h : Host) (actions : list Action) :
  forall s, calm s -> calm (fst (run h s actions)).
Proof.
  induction actions as [|a rest IH]; intros s Hs; simpl; [exact Hs|].
  pose proof (step_calm h s a Hs) as H1.
  destruct (step h s a) as [s1 out1]. simpl in H1.
  specialize (IH s1 H1). destruct (run h s1 rest) as [s2 out2]. exact IH.
Qed.

(** X22: the recorder never listens while a transcript waits for
    confirmation. *)
Theorem never_listening_with_pending (h : Host) (actions : list Action) :
  isListening (fst (run h initial actions)) = true ->
  pendingTranscript (fst (run h initial actions)) = None.
Proof. apply run_calm. intros H. discriminate. Qed.

Lemma run_unsupported (actions : list Action) (onChange : bool) :
  forall s,
    isListening s = false ->
    isListening (fst (run (mkHost false onChange) s actions)) = false
    /\ ~ In Started (snd (run (mkHost false onChange) s actions)).
Proof.
  induction actions as [|a rest IH]; intros s Hs; simpl; [auto|].
  assert (isListening (fst (step (mkHost false onChange) s a)) = false
          /\ ~ In Started (snd (step (mkHost false onChange) s a))) as [H1 H2].
  { destruct a; simpl; unfold handleConfirm, handleMicClick; simpl;
      try destruct (pendingTranscript s) as [p|];
      try destruct (confirmed && truthy _); try destruct onChange; simpl;
      (split; [trivial | intros H; repeat destruct H as [H | H];
                         try discriminate; try contradiction]). }
  destruct (step (mkHost false onChange) s a) as [s1 out1]. simpl in H1, H2.
  destruct (IH s1 H1) as [H3 H4].
  destruct (run (mkHost false onChange) s1 rest) as [s2 out2]. simpl in *.
  split; trivial. intros H. apply in_app_iff in H. tauto.
Qed.

(** X23: without a speech recognition in the browser, the recorder never
    listens and never starts a recognition. *)
Theorem unsupported_browser_never_listens (actions : list Action) (onChange : bool) :
  let r := run (mkHost false onChange) initial actions in
  isListening (fst r) = false /\ ~ In Started (snd r).
Proof. apply run_unsupported. reflexivity. Qed.

Lemma run_confirms_heard (h : Host) (actions : list Action) :
  forall s known,
    (forall p, pendingTranscript s = Some p -> In p known) ->
    forall t, In (OnConfirm t) (snd (run h s actions)) -> In t (known ++ heard actions).
Proof.
  induction actions as [|a rest IH]; intros s known Hs t; [simpl; tauto|].
  cbn [run].
  assert ((forall u, In (OnConfirm u) (snd (step h s a)) -> In u (known ++ heard [a]))
          /\ (forall p, pendingTranscript (fst (step h s a)) = Some p ->
                        In p (known ++ heard [a]))) as [H1 H2].
  { destruct a; simpl; unfold handleConfirm, handleMicClick; simpl.
    - destruct (supported h); simpl; split; intros ? H;
        try discriminate; intuition discriminate.
    - split; [tauto|]. intros p H. injection H as ->. apply in_app_iff. right. now left.
    - split; [tauto | discriminate].
    - split; [tauto|]. intros p H. apply in_app_iff. left. now apply Hs.
    - destruct (pendingTranscript s) as [p|] eqn:P;
        [destruct (confirmed && truthy p)|]; simpl;
        try (destruct (supported h); simpl; split; intros ? H;
             try discriminate; intuition discriminate).
      split; [|discriminate]. intros u [H | []]. injection H as <-.
      apply in_app_iff. left. now apply Hs.
    - split.
      + intros u [H | []]. destruct (hasOnChange h); [discriminate|].
        injection H as <-. apply in_app_iff. right. now left.
      + intros p H. apply in_app_iff. left. now apply Hs. }
  destruct (step h s a) as [s1 out1]. simpl in H1, H2.
  specialize (IH s1 (known ++ heard [a]) H2 t).
  destruct (run h s1 rest) as [s2 out2]. cbn [fst snd] in *.
  intros H. apply in_app_iff in H.
  assert (heard (a :: rest) = heard [a] ++ heard rest) as E by now destruct a.
  rewrite E, app_assoc. destruct H as [H | H]; [|now apply IH].
  apply in_app_iff. left. now apply H1.
Qed.

(** X24: [onConfirm] receives only texts that were recognised or typed. *)
Theorem confirms_only_what_was_heard (h : Host) (actions : list Action) (t : string) :
  In (OnConfirm t) (snd (run h initial actions)) -> In t (heard actions).
Proof.
  intros H. apply (run_confirms_heard h actions initial [] ) in H; [exact H|].
  intros p Hp. discriminate.
Qed.

Lemma never_listening_with_pending_witness :
  let h := mkHost true false in
  let actions := [MicClick; Recognised "open the report"; Confirm false] in
  isListening (fst (run h initial actions)) = true
  /\ pendingTranscript (fst (run h initial actions)) = None.
Proof.
  intros h actions. split; [reflexivity|].
  exact (never_listening_with_pending h actions eq_refl).
Defined.

Lemma confirms_only_what_was_heard_witness :
  let h := mkHost true true in
  let actions := [MicClick; Recognised "open the report"; Confirm true] in
  In (OnConfirm "open the report") (snd (run h initial actions))
  /\ In "open the report" (heard actions).
Proof.
  intros h actions.
  assert (In (OnConfirm "open the report") (snd (run h initial actions))) as H
    by (vm_compute; tauto).
  split; [exact H|].
  exact (confirms_only_what_was_heard h actions "open the report" H).
Defined.

End VoiceFacts.

(** ** Details of the dispatch *)

Section Details.

Context {ImpactResult : Type}.
Variable ext : Externals.
Variable api : Api ImpactResult.

Ltac asks :=
  repeat first
    [ apply emits_ret
    | apply emits_throw
    | apply emits_invoke; intros ?; (intros ? ? ? H; simpl in H; now inversion H)
    | apply emits_all_map; intros ?
    | apply emits_bind; [|intros ?] ].

Lemma dispatch_asks (space : string) (a : Assignment) (audit : Audit) :
  emits (asksFor a) (dispatch ext api space a audit).
Proof.
  assert (forall actions detectedCode o,
             emits (asksFor a)
                   (runActions ImpactResult api space (page a) detectedCode actions o))
    as Hactions.
  { induction actions as [|action rest IH]; intros detectedCode o; simpl.
    - apply emits_ret.
    - apply emits_bind; [unfold callCodeAssistant; asks|]. intros result. apply IH. }
  unfold dispatch, viaSearch, callSearch, callCodeAssistant, callGetImages,
    callImageSummary, callVideoSummarizer.
  destruct (tool a).
  - asks.
  - apply emits_bind; [asks|]. intros images.
    apply emits_bind; [|intros; asks].
    destruct (0 <? List.length images); asks.
  - apply emits_bind; [asks|]. intros initialResult.
    apply emits_bind; [apply Hactions|]. intros; asks.
  - asks.
  - asks.
  - asks.
Qed.

Lemma dispatchAll_asks (space : string) (assignments : list Assignment) :
  forall pageResults audit,
    emits (fun e => forall s ps q, call e = Search s ps q ->
                      exists a, In a assignments /\ ps = [page a] /\ q = instruction a)
          (dispatchAll ext api space assignments pageResults audit).
Proof.
  induction assignments as [|a rest IH]; intros pageResults audit; simpl.
  - apply emits_ret.
  - apply emits_bind.
    + eapply emits_weaken; [|apply dispatch_asks].
      intros e He s ps q Hc. exists a. split; [now left | now apply (He s)].
    + intros [r audit']. destruct (inherited (page a)); [apply emits_throw|].
      eapply emits_weaken; [|apply IH].
      intros e He s ps q Hc. destruct (He s ps q Hc) as (a' & ? & ?). exists a'. auto.
Qed.

(** X25: every search call of a submission is about one selected page, and
    asks one of the instructions or the default text. *)
Theorem search_queries_are_instructions (i : Inputs) (v : View ImpactResult)
    (e : Event) (s : string) (ps : list string) (q : string) :
  In e (snd (handleGoalSubmit ext api i v)) ->
  call e = Search s ps q ->
  (exists p, ps = [p] /\ In p (selectedPages i))
  /\ (In q (splitInstructions (goal i)) \/ q = "Analyze this content").
Proof.
  unfold handleGoalSubmit.
  destruct (negb (truthy (trim (goal i))) || negb (truthy (selectedSpace i))
            || (List.length (selectedPages i) =? 0)); [intros []|].
  assert (emits (fun e => forall s ps q, call e = Search s ps q ->
                    exists a, In a (assign (pageTypes i) (selectedPages i)
                                      (splitInstructions (goal i)))
                              /\ ps = [page a] /\ q = instruction a)
                (orchestrate ext api i)) as H.
  { unfold orchestrate. apply emits_bind; [apply dispatchAll_asks|].
    intros [pageResults audit]. apply emits_bind.
    - unfold twoPageTools, callImpactAnalyzer, callTestSupport.
      destruct (selectedPages i) as [|first [|second [|third rest]]]; try apply emits_ret.
      apply emits_bind.
      + destruct (existsb _ _); asks.
      + intros [? ?]. apply emits_bind; [destruct (existsb _ _); asks|].
        intros [? ?]. apply emits_ret.
    - intros [[? ?] ?]. apply emits_ret. }
  destruct (H []) as (new & E & Hall & _).
  destruct (orchestrate ext api i []) as [outcome events]. simpl in *. subst events.
  intros Hin Hc. rewrite Forall_forall in Hall.
  destruct (Hall e Hin s ps q Hc) as (a & Ha & -> & ->).
  unfold assign, route in Ha. apply in_map_iff in Ha.
  destruct Ha as ([a' tier] & <- & Ha). simpl.
  destruct (matchPages_origin _ _ _ _ _ _ Ha) as (Hp & _ & Hi & _). eauto.
Qed.

Lemma all_calls (space page : string) (images : list string) :
  forall events,
    map call (snd (all (map (callImageSummary ImpactResult api space page) images) events))
    = map call events ++ map (ImageSummary space page) images.
Proof.
  induction images as [|url rest IH]; intros events; simpl.
  - now rewrite app_nil_r.
  - cbn [map all].
    match goal with
    | |- context [all ?ms ?ev] => specialize (IH ev); destruct (all ms ev) as [rs e2]
    end.
    simpl in *. rewrite IH. unfold push. rewrite map_app, <- app_assoc. reflexivity.
Qed.

(** X26: on an image page whose images are listed, every image is
    requested, in order, whatever the fate of the requests before it. *)
Theorem image_page_requests_every_image
    (space : string) (a : Assignment) (audit : Audit) (events : list Event)
    (images : list string) :
  tool a = image_insights ->
  getImages ImpactResult api events space (page a) = Some images ->
  map call (snd (dispatch ext api space a audit events))
  = map call events
    ++ GetImages space (page a) :: map (ImageSummary space (page a)) images.
Proof.
  intros Ht Hg. unfold dispatch. rewrite Ht.
  unfold bind, callGetImages, invoke, push. rewrite Hg. cbn [isSome].
  destruct images as [|url rest].
  - simpl. now rewrite map_app.
  - cbn [List.length Nat.ltb Nat.leb].
    pose proof (all_calls space (page a) (url :: rest)
                  (events ++ [mkEvent (GetImages space (page a)) true])) as Hall.
    destruct (all (map (callImageSummary ImpactResult api space (page a)) (url :: rest)) _)
      as [[summaries|] ev2]; simpl in Hall |- *;
      rewrite Hall, map_app, <- app_assoc; reflexivity.
Qed.

Lemma orElse_truthy (a b : string) : truthy b = true -> truthy (orElse a b) = true.
Proof. intros H. unfold orElse. now destruct (truthy a) eqn:E. Qed.

Lemma runActions_categorised (space page detectedCode : string) (actions : list string) :
  forall o events,
    categorised o ->
    match fst (runActions ImpactResult api space page detectedCode actions o events) with
    | Some o' => categorised o'
    | None => True
    end.
Proof.
  induction actions as [|action rest IH]; intros o events Ho; simpl; [exact Ho|].
  unfold bind, callCodeAssistant, invoke.
  destruct (codeAssistant ImpactResult api events space page _) as [result|]; simpl; trivial.
  apply IH. unfold categorised.
  set (output := orElse (modified_code result) _).
  assert (truthy output = true) as T by (repeat apply orElse_truthy; reflexivity).
  destruct (test true _ action); [|destruct (test true _ action)]; simpl;
    intros _; rewrite T; rewrite ?orb_true_r; reflexivity.
Qed.

(** X27: a dispatch to the code assistant reports at most three outputs
    and never one headed [Processed Code:]. *)
Theorem processed_code_is_never_reported
    (space : string) (a : Assignment) (audit audit' : Audit) (events events' : list Event)
    (r : PageResult) :
  tool a = code_assistant ->
  dispatch ext api space a audit events = (Some (r, audit'), events') ->
  Forall (fun out => prefix "Processed Code:" out = false) (outputs r)
  /\ List.length (outputs r) <= 3.
Proof.
  intros Ht. unfold dispatch. rewrite Ht. unfold bind at 1.
  destruct (callCodeAssistant ImpactResult api space (page a) "" events)
    as [[initialResult|] ev1]; [|discriminate].
  unfold bind.
  pose proof (runActions_categorised space (page a)
                (orElse (original_code initialResult) "")
                (splitRelatedActions (instruction a))
                (mkCodeOutputs "" "" "" "") ev1) as Hc.
  destruct (runActions ImpactResult api space (page a) _ _ _ ev1) as [[o|] ev2];
    [|discriminate].
  simpl in Hc. assert (categorised o) as Ho by (apply Hc; intros H; discriminate).
  intros H. injection H as <- _ _. simpl.
  unfold codeOutputs, push. unfold categorised in Ho.
  destruct (truthy (aiActionOutput o)), (truthy (conversionOutput o)),
    (truthy (modificationOutput o)); simpl in *;
    try (split; [repeat constructor | lia]).
  destruct (truthy (lastOutput o)); [specialize (Ho eq_refl); discriminate|].
  simpl. split; [constructor | lia].
Qed.

End Details.

(** ** Instructions hold no separator *)

Section Context.

Lemma lastOf_app (a b : string) :
  forall p, lastOf p (a ++ b) = lastOf (lastOf p a) b.
Proof. induction a as [|c a IH]; intros p; simpl; [reflexivity | apply IH]. Qed.

Lemma lastOf_nonempty (a : string) (p q : option ascii) :
  a <> EmptyString -> lastOf p a = lastOf q a.
Proof. destruct a; [congruence | reflexivity]. Qed.

Lemma lastOf_snoc (a : string) (c : ascii) (p : option ascii) :
  lastOf p (a ++ String c EmptyString) = Some c.
Proof. now rewrite lastOf_app. Qed.

Lemma string_length_app (a b : string) :
  String.length (a ++ b) = String.length a + String.length b.
Proof. induction a as [|c a IH]; simpl; [reflexivity | now rewrite IH]. Qed.

Lemma append_nil_r (a : string) : (a ++ EmptyString)%string = a.
Proof. induction a as [|c a IH]; simpl; [reflexivity | now rewrite IH]. Qed.

Lemma snoc_app_inv (cur : string) (c : ascii) :
  forall a b,
    (cur ++ String c EmptyString)%string = (a ++ b)%string -> b <> EmptyString ->
    exists b0, b = (b0 ++ String c EmptyString)%string /\ cur = (a ++ b0)%string.
Proof.
  induction cur as [|d cur IH]; intros a b E Hb.
  - destruct a as [|x a]; simpl in E.
    + exists EmptyString. now split.
    + injection E as _ E. destruct a; destruct b; simpl in E; congruence.
  - destruct a as [|x a]; simpl in E.
    + exists (String d cur). now split.
    + injection E as -> E. destruct (IH _ _ E Hb) as (b0 & -> & ->).
      exists b0. now split.
Qed.

(** *** Code units *)

Lemma ascii_all (P : ascii -> bool) :
  forallb P (map ascii_of_nat (seq 0 256)) = true -> forall c, P c = true.
Proof.
  intros H c. rewrite forallb_forall in H. apply H.
  rewrite <- (ascii_nat_embedding c). apply in_map, in_seq.
  pose proof (nat_ascii_bounded c). lia.
Qed.

Lemma charEq_word (p c : ascii) :
  charEq true p c = true -> isWordChar c = isWordChar p.
Proof.
  revert c. pattern p. revert p.
  assert (forall p, forallb (fun c => implb (charEq true p c)
                                        (Bool.eqb (isWordChar c) (isWordChar p)))
                      (map ascii_of_nat (seq 0 256)) = true) as H.
  { apply (ascii_all (fun p => forallb _ _)). vm_compute. reflexivity. }
  intros p c E.
  pose proof (ascii_all _ (H p) c) as Hc. cbv beta in Hc. rewrite E in Hc.
  now apply Bool.eqb_prop.
Qed.

Lemma whitespace_not_word (c : ascii) :
  isWhiteSpace c = true -> isWordChar c = false.
Proof.
  pose proof (ascii_all (fun c => implb (isWhiteSpace c) (negb (isWordChar c)))
                eq_refl c) as H. cbv beta in H.
  intros W. rewrite W in H. now apply negb_true_iff.
Qed.

Lemma blank_hd (w : string) : blank w -> isWordOpt (hd_char w) = false.
Proof.
  destruct w as [|c w]; [reflexivity|]. intros H. inversion H; subst.
  now apply whitespace_not_word.
Qed.

Lemma blank_last (w : string) :
  forall p, blank w -> w <> EmptyString -> isWordOpt (lastOf p w) = false.
Proof.
  induction w as [|c w IH]; intros p H Hne; [congruence|].
  inversion H as [|? ? Hc Hw]; subst. destruct w as [|d w].
  - now apply whitespace_not_word.
  - apply (IH (Some c)); [exact Hw | discriminate].
Qed.

Lemma trimStart_decompose (s : string) :
  exists wl, s = (wl ++ trimStart s)%string /\ blank wl.
Proof.
  induction s as [|c s (wl & E & B)]; simpl.
  - exists EmptyString. split; [reflexivity | constructor].
  - destruct (isWhiteSpace c) eqn:W.
    + exists (String c wl). split; [simpl; now rewrite <- E | now constructor].
    + exists EmptyString. split; [reflexivity | constructor].
Qed.

Lemma trimEnd_decompose (s : string) :
  exists wr, s = (trimEnd s ++ wr)%string /\ blank wr.
Proof.
  induction s as [|c s (wr & E & B)]; simpl.
  - exists EmptyString. split; [reflexivity | constructor].
  - destruct (trimEnd s) as [|d t].
    + simpl in E. subst wr. destruct (isWhiteSpace c) eqn:W.
      * exists (String c s). split; [reflexivity | now constructor].
      * exists s. now split.
    + exists wr. split; [simpl; now rewrite E at 1 | exact B].
Qed.

Lemma trim_decompose (s : string) :
  exists wl wr, s = (wl ++ trim s ++ wr)%string /\ blank wl /\ blank wr.
Proof.
  destruct (trimStart_decompose s) as (wl & E1 & B1).
  destruct (trimEnd_decompose (trimStart s)) as (wr & E2 & B2).
  exists wl, wr. unfold trim. rewrite <- E2. now repeat split.
Qed.

(** *** Literals *)

Lemma litMatch_inv (ic : bool) (l : string) :
  forall prev s p' r,
    litMatch ic l prev s = Some (p', r) ->
    exists m, s = (m ++ r)%string /\ p' = lastOf prev m
              /\ String.length m = String.length l.
Proof.
  induction l as [|a l IH]; intros prev s p' r; simpl.
  - intros H. injection H as <- <-. exists EmptyString. now repeat split.
  - destruct s as [|c s]; [discriminate|].
    destruct (charEq ic a c); [|discriminate].
    intros H. destruct (IH _ _ _ _ H) as (m & -> & -> & L).
    exists (String c m). simpl. now rewrite L.
Qed.

Lemma litMatch_ext (ic : bool) (l : string) :
  forall prev s p' r ext,
    litMatch ic l prev s = Some (p', r) ->
    litMatch ic l prev (s ++ ext) = Some (p', (r ++ ext)%string).
Proof.
  induction l as [|a l IH]; intros prev s p' r ext; simpl.
  - intros H. now injection H as <- <-.
  - destruct s as [|c s]; [discriminate|]. simpl.
    destruct (charEq ic a c); [apply IH | discriminate].
Qed.

Lemma litMatch_prev (ic : bool) (l : string) (p1 p2 : option ascii) (s : string) :
  l <> EmptyString -> litMatch ic l p1 s = litMatch ic l p2 s.
Proof. destruct l; [congruence|]. intros _. now destruct s. Qed.

Lemma litMatch_head (a : ascii) (l : string) (prev : option ascii) (s : string)
    (p' : option ascii) (r : string) :
  litMatch true (String a l) prev s = Some (p', r) ->
  isWordOpt (hd_char s) = isWordChar a.
Proof.
  cbn [litMatch]. destruct s as [|c s]; [discriminate|].
  destruct (charEq true a c) eqn:E; [|discriminate].
  intros _. cbn [hd_char isWordOpt]. now apply charEq_word.
Qed.

Lemma litMatch_last (l : string) :
  l <> EmptyString ->
  forall prev s p' r,
    litMatch true l prev s = Some (p', r) ->
    isWordOpt p' = isWordOpt (lastOf None l).
Proof.
  induction l as [|a l IH]; [congruence|]. intros _ prev s p' r.
  cbn [litMatch]. destruct s as [|c s]; [discriminate|].
  destruct (charEq true a c) eqn:E; [|discriminate].
  destruct l as [|b l].
  - cbn [litMatch lastOf]. intros H. injection H as <- _. cbn [isWordOpt].
    now apply charEq_word.
  - intros H. rewrite (IH ltac:(discriminate) _ _ _ _ H). reflexivity.
Qed.

Lemma litMatch_lit_lit (ic : bool) (l1 l2 : string) :
  forall prev s,
    litMatch ic (l1 ++ l2) prev s
    = match litMatch ic l1 prev s with
      | Some (p', r) => litMatch ic l2 p' r
      | None => None
      end.
Proof.
  induction l1 as [|a l1 IH]; intros prev s; simpl; [reflexivity|].
  destruct s as [|c s]; [reflexivity|].
  destruct (charEq ic a c); [apply IH | reflexivity].
Qed.

(** *** The kinds of separators *)

Lemma matchesAt_alt (ic : bool) (r1 r2 : regex) (prev : option ascii) (s : string) :
  matchesAt ic (r1 <|> r2) prev s = matchesAt ic r1 prev s || matchesAt ic r2 prev s.
Proof.
  unfold matchesAt, execAt. cbn [matchAt].
  destruct (matchAt ic r1 prev s _); [reflexivity|].
  now destruct (matchAt ic r2 prev s _).
Qed.

Lemma execAt_alt_inv (ic : bool) (r1 r2 : regex) (prev : option ascii) (s rest : string) :
  execAt ic (r1 <|> r2) prev s = Some rest ->
  execAt ic r1 prev s = Some rest \/ execAt ic r2 prev s = Some rest.
Proof.
  unfold execAt. cbn [matchAt].
  destruct (matchAt ic r1 prev s _); intros H; [left | right]; exact H.
Qed.

Lemma wb_alt (r1 r2 : regex) :
  wellBehaved r1 -> wellBehaved r2 -> wellBehaved (r1 <|> r2).
Proof.
  intros W1 W2. constructor.
  - intros p1 p2 s H. rewrite !matchesAt_alt.
    now rewrite (wb_prev _ W1 p1 p2 s H), (wb_prev _ W2 p1 p2 s H).
  - intros prev s ext H Hext. rewrite matchesAt_alt in *.
    apply orb_true_iff in H. apply orb_true_iff. destruct H as [H | H].
    + left. now apply (wb_ext _ W1).
    + right. now apply (wb_ext _ W2).
  - intros prev s H. rewrite matchesAt_alt in H.
    apply orb_true_iff in H. destruct H as [H | H].
    + now apply (wb_after_word _ W1).
    + now apply (wb_after_word _ W2).
  - intros prev s rest H. apply execAt_alt_inv in H. destruct H as [H | H].
    + now apply (wb_ends _ W1).
    + now apply (wb_ends _ W2).
Qed.

Lemma wb_equiv (r r' : regex) :
  (forall prev s, execAt true r prev s = execAt true r' prev s) ->
  wellBehaved r' -> wellBehaved r.
Proof.
  intros E W.
  assert (forall prev s, matchesAt true r prev s = matchesAt true r' prev s) as M.
  { intros prev s. unfold matchesAt. now rewrite E. }
  constructor.
  - intros p1 p2 s H. rewrite !M. now apply (wb_prev _ W).
  - intros prev s ext H Hext. rewrite M in *. now apply (wb_ext _ W).
  - intros prev s H. rewrite M in H. now apply (wb_after_word _ W).
  - intros prev s rest H. rewrite E in H. now apply (wb_ends _ W).
Qed.

Lemma matchesAt_lit (ic : bool) (l : string) (prev : option ascii) (s : string) :
  matchesAt ic (Lit l) prev s
  = match litMatch ic l prev s with Some _ => true | None => false end.
Proof.
  unfold matchesAt, execAt. cbn [matchAt].
  now destruct (litMatch ic l prev s) as [[p' r]|].
Qed.

(** A literal that neither starts nor ends with a word character. *)
Lemma wb_lit (a : ascii) (l : string) :
  isWordChar a = false ->
  isWordOpt (lastOf None (String a l)) = false ->
  wellBehaved (Lit (String a l)).
Proof.
  intros Ha Hl. constructor.
  - intros p1 p2 s _. rewrite !matchesAt_lit.
    now rewrite (litMatch_prev true (String a l) p1 p2 s).
  - intros prev s ext H _. rewrite matchesAt_lit in *.
    destruct (litMatch true (String a l) prev s) as [[p' r]|] eqn:E; [|discriminate].
    now rewrite (litMatch_ext _ _ _ _ _ _ ext E).
  - intros prev s H _. rewrite matchesAt_lit in H.
    destruct (litMatch true (String a l) prev s) as [[p' r]|] eqn:E; [|discriminate].
    rewrite (litMatch_head _ _ _ _ _ _ E). exact Ha.
  - intros prev s rest. unfold execAt. cbn [matchAt].
    destruct (litMatch true (String a l) prev s) as [[p' r]|] eqn:E; [|discriminate].
    intros H. injection H as ->.
    pose proof (litMatch_last (String a l) ltac:(discriminate) _ _ _ _ E) as Hp.
    destruct (litMatch_inv _ _ _ _ _ _ E) as (m & -> & -> & L).
    exists m. split; [reflexivity|]. split.
    + destruct m; [discriminate | discriminate].
    + intros Hw. congruence.
Qed.

Lemma word_exec (a : ascii) (l : string) (prev : option ascii) (s rest : string) :
  isWordChar a = true ->
  isWordOpt (lastOf None (String a l)) = true ->
  execAt true (WordB >> String a l >> WordB) prev s = Some rest
  <-> isWordOpt prev = false
      /\ (exists p', litMatch true (String a l) prev s = Some (p', rest))
      /\ isWordOpt (hd_char rest) = false.
Proof.
  intros Ha Hl. unfold execAt. cbn [matchAt].
  destruct (litMatch true (String a l) prev s) as [[p' r]|] eqn:E.
  - rewrite (litMatch_head _ _ _ _ _ _ E), Ha.
    rewrite (litMatch_last (String a l) ltac:(discriminate) _ _ _ _ E), Hl.
    destruct (isWordOpt prev), (isWordOpt (hd_char r)) eqn:Hr; simpl; split;
      try discriminate; try (intros (? & ? & ?); discriminate).
    + intros (_ & (q & Hq) & Hh). injection Hq as _ <-. congruence.
    + intros H. injection H as <-. repeat split; eauto.
    + intros (_ & (q & Hq) & _). now injection Hq as _ <-.
  - split; [destruct (xorb _ _); discriminate|].
    intros (_ & (q & Hq) & _). discriminate.
Qed.

Lemma matchesAt_true (ic : bool) (r : regex) (prev : option ascii) (s : string) :
  matchesAt ic r prev s = true <-> exists rest, execAt ic r prev s = Some rest.
Proof.
  unfold matchesAt. destruct (execAt ic r prev s) as [rest|]; split; eauto.
  - discriminate.
  - intros (? & ?). discriminate.
Qed.

(** A word between two word boundaries. *)
Lemma wb_word (a : ascii) (l : string) :
  isWordChar a = true ->
  isWordOpt (lastOf None (String a l)) = true ->
  wellBehaved (WordB >> String a l >> WordB).
Proof.
  intros Ha Hl.
  assert (forall prev s, matchesAt true (WordB >> String a l >> WordB) prev s = true ->
            isWordOpt (hd_char s) = true) as Hhd.
  { intros prev s H. apply matchesAt_true in H. destruct H as (rest & H).
    apply (word_exec a l) in H; trivial. destruct H as (_ & (p' & E) & _).
    rewrite (litMatch_head _ _ _ _ _ _ E). exact Ha. }
  constructor.
  - intros p1 p2 s [H | H].
    + apply Bool.eq_iff_eq_true. rewrite !matchesAt_true.
      split; intros (rest & E); exists rest; apply (word_exec a l) in E; trivial;
        apply (word_exec a l); trivial; destruct E as (Hp & (p' & E) & Hr);
        (split; [congruence|]); (split; [|exact Hr]); exists p';
        rewrite <- E; now apply litMatch_prev.
    + destruct (matchesAt true _ p1 s) eqn:E1.
      { apply Hhd in E1. congruence. }
      destruct (matchesAt true _ p2 s) eqn:E2; [|reflexivity].
      apply Hhd in E2. congruence.
  - intros prev s ext H Hext. apply matchesAt_true in H. destruct H as (rest & H).
    apply (word_exec a l) in H; trivial. destruct H as (Hp & (p' & E) & Hr).
    apply matchesAt_true. exists (rest ++ ext)%string. apply (word_exec a l); trivial.
    split; [exact Hp|]. split; [exists p'; now apply litMatch_ext|].
    destruct rest as [|d rest]; [|exact Hr]. simpl. apply Hext.
    pose proof (litMatch_last (String a l) ltac:(discriminate) _ _ _ _ E) as Hlast.
    destruct (litMatch_inv _ _ _ _ _ _ E) as (m & -> & -> & _).
    rewrite append_nil_r. congruence.
  - intros prev s H Hprev. apply matchesAt_true in H. destruct H as (rest & H).
    apply (word_exec a l) in H; trivial. destruct H as (Hp & _). congruence.
  - intros prev s rest H. apply (word_exec a l) in H; trivial.
    destruct H as (Hp & (p' & E) & Hr).
    destruct (litMatch_inv _ _ _ _ _ _ E) as (m & -> & -> & L).
    exists m. split; [reflexivity|]. split; [|intros _; exact Hr].
    destruct m; discriminate.
Qed.

(** A literal that starts with no word character, then one code unit of
    a class without word characters. *)
Lemma wb_lit_cls (a : ascii) (l : string) (q : ascii -> bool) :
  isWordChar a = false ->
  (forall c, q c = true -> isWordChar c = false) ->
  wellBehaved (String a l >> Cls q).
Proof.
  intros Ha Hq.
  assert (forall prev s rest,
            execAt true (String a l >> Cls q) prev s = Some rest
            <-> exists p' d, litMatch true (String a l) prev s = Some (p', String d rest)
                             /\ q d = true) as X.
  { intros prev s rest. unfold execAt. cbn [matchAt].
    destruct (litMatch true (String a l) prev s) as [[p' [|d r]]|] eqn:E.
    - split; [discriminate | intros (? & ? & ? & _); discriminate].
    - destruct (q d) eqn:Q; split.
      + intros H. injection H as <-. eauto.
      + intros (? & ? & H & _). now injection H as _ _ <-.
      + discriminate.
      + intros (? & ? & H & Q'). injection H as _ <- _. congruence.
    - split; [discriminate | intros (? & ? & ? & _); discriminate]. }
  constructor.
  - intros p1 p2 s _. unfold matchesAt, execAt. cbn [matchAt].
    now rewrite (litMatch_prev true (String a l) p1 p2 s).
  - intros prev s ext H _. apply matchesAt_true in H. destruct H as (rest & H).
    apply X in H. destruct H as (p' & d & E & Q).
    apply matchesAt_true. exists (rest ++ ext)%string. apply X. exists p', d.
    split; [|exact Q]. now apply (litMatch_ext _ _ _ _ _ _ ext) in E.
  - intros prev s H _. apply matchesAt_true in H. destruct H as (rest & H).
    apply X in H. destruct H as (p' & d & E & Q).
    rewrite (litMatch_head _ _ _ _ _ _ E). exact Ha.
  - intros prev s rest H. apply X in H. destruct H as (p' & d & E & Q).
    destruct (litMatch_inv _ _ _ _ _ _ E) as (m & -> & -> & L).
    exists (m ++ String d EmptyString)%string. split; [now rewrite append_snoc|]. split.
    + destruct m; discriminate.
    + rewrite lastOf_snoc. simpl. rewrite (Hq _ Q). discriminate.
Qed.

Lemma execAt_lit_lit (ic : bool) (l1 l2 : string) (prev : option ascii) (s : string) :
  execAt ic (l1 >> l2) prev s = execAt ic (Lit (l1 ++ l2)) prev s.
Proof.
  unfold execAt. cbn [matchAt]. rewrite litMatch_lit_lit.
  now destruct (litMatch ic l1 prev s) as [[p' r]|].
Qed.

Lemma separators_wellBehaved : wellBehaved separators.
Proof.
  unfold separators. repeat apply wb_alt.
  - now apply wb_word.
  - now apply wb_word.
  - now apply (wb_lit (ascii_of_nat 10) EmptyString).
  - now apply (wb_lit (ascii_of_nat 13) EmptyString).
  - apply (wb_equiv _ (Lit (CR ++ LF))); [apply execAt_lit_lit|].
    now apply (wb_lit (ascii_of_nat 13) LF).
  - now apply wb_lit.
  - now apply wb_lit.
  - now apply wb_lit.
  - now apply wb_lit.
  - apply wb_lit_cls; [reflexivity | apply whitespace_not_word].
Qed.

Lemma relatedSeparators_wellBehaved : wellBehaved relatedSeparators.
Proof.
  unfold relatedSeparators. repeat apply wb_alt.
  - now apply wb_word.
  - now apply wb_word.
  - now apply wb_lit.
Qed.

End Context.

(** *** Pieces *)

Section Pieces.

Variable r : regex.
Hypothesis well : wellBehaved r.

Lemma testFrom_none (s : string) :
  forall p0,
    (forall a b, s = (a ++ b)%string -> execAt true r (lastOf p0 a) b = None) ->
    testFrom true r p0 s = false.
Proof.
  induction s as [|c s IH]; intros p0 H; cbn [testFrom].
  - pose proof (H EmptyString EmptyString eq_refl) as E. cbn [lastOf] in E.
    now rewrite E.
  - pose proof (H EmptyString (String c s) eq_refl) as E. cbn [lastOf] in E.
    rewrite E. apply IH.
    intros a b ->. apply (H (String c a) b eq_refl).
Qed.

Lemma matchesAt_false (prev : option ascii) (s : string) :
  matchesAt true r prev s = false <-> execAt true r prev s = None.
Proof.
  unfold matchesAt. destruct (execAt true r prev s); split; congruence.
Qed.

(** A piece that is quiet where it stands, and ends where the text or a
    separator does, holds no separator when read alone and trimmed. *)
Lemma quiet_piece (p0 : option ascii) (cur s : string) :
  quiet r p0 cur s ->
  s = EmptyString \/ matchesAt true r (lastOf p0 cur) s = true ->
  testFrom true r None (trim cur) = false.
Proof.
  intros [Hq Hstart] Hend.
  destruct (trim_decompose cur) as (wl & wr & Ecur & Bl & Br).
  apply testFrom_none. intros a b Et.
  apply matchesAt_false. destruct (matchesAt true r (lastOf None a) b) eqn:M; [|reflexivity].
  exfalso.
  assert (b <> EmptyString) as Hb.
  { intros ->. apply matchesAt_true in M. destruct M as (rest & M).
    destruct (wb_ends _ well _ _ _ M) as (m & E & Hm & _).
    destruct m; [congruence | discriminate]. }
  assert (trim cur <> EmptyString) as Ht.
  { rewrite Et. destruct a; [exact Hb | discriminate]. }
  assert (cur = ((wl ++ a) ++ (b ++ wr))%string) as Ecur'.
  { rewrite Ecur at 1. rewrite Et. now rewrite <- !string_app_assoc. }
  assert (execAt true r (lastOf p0 (wl ++ a)) ((b ++ wr) ++ s) = None) as Hnone.
  { apply Hq; [exact Ecur'|]. destruct b; [congruence | discriminate]. }
  apply matchesAt_false in Hnone. rewrite <- string_app_assoc in Hnone.
  assert (matchesAt true r (lastOf None a) (b ++ (wr ++ s)) = true) as Mext.
  { apply (wb_ext _ well); [exact M|]. rewrite <- lastOf_app, <- Et. intros Hw.
    destruct wr as [|d wr].
    - simpl. destruct Hend as [-> | Hend]; [reflexivity|].
      apply (wb_after_word _ well _ _ Hend).
      rewrite Ecur, append_nil_r, lastOf_app.
      now rewrite (lastOf_nonempty _ _ None Ht).
    - apply (blank_hd (String d wr) Br). }
  rewrite (wb_prev _ well _ (lastOf None a)) in Hnone; [congruence|].
  destruct a as [|x a].
  - rewrite append_nil_r. simpl. destruct wl as [|y wl].
    + simpl. destruct (isWordOpt p0) eqn:Hp; [right | now left].
      specialize (Hstart eq_refl). rewrite Ecur' in Hstart. simpl in Hstart.
      rewrite <- string_app_assoc in Hstart. exact Hstart.
    + left. apply blank_last; [exact Bl | discriminate].
  - left. rewrite lastOf_app. now rewrite (lastOf_nonempty _ _ None).
Qed.

Lemma splitFrom_skip (ic : bool) (m : string) :
  forall prev cur rest,
    splitFrom ic r prev (String.length m) cur (m ++ rest)
    = splitFrom ic r (lastOf prev m) 0 cur rest.
Proof.
  induction m as [|c m IH]; intros prev cur rest; [reflexivity|].
  simpl. apply IH.
Qed.

Lemma quiet_snoc (p0 : option ascii) (cur : string) (c : ascii) (s : string) :
  quiet r p0 cur (String c s) ->
  execAt true r (lastOf p0 cur) (String c s) = None ->
  quiet r p0 (cur ++ String c EmptyString) s.
Proof.
  intros [Hq Hstart] E. split.
  - intros a b Eab Hb. destruct (snoc_app_inv _ _ _ _ Eab Hb) as (b0 & -> & ->).
    rewrite append_snoc. destruct b0 as [|d b0].
    + simpl. now rewrite append_nil_r in E.
    + now apply Hq.
  - rewrite append_snoc. exact Hstart.
Qed.

Lemma splitFrom_pieces (n : nat) :
  forall s, String.length s <= n ->
  forall p0 cur,
    quiet r p0 cur s ->
    Forall (fun piece => testFrom true r None (trim piece) = false)
           (splitFrom true r (lastOf p0 cur) 0 cur s).
Proof.
  induction n as [|n IH]; intros s Hn p0 cur Q.
  - destruct s; [|simpl in Hn; lia]. simpl. constructor; [|constructor].
    apply (quiet_piece p0 cur EmptyString Q). now left.
  - destruct s as [|c s].
    { simpl. constructor; [|constructor].
      apply (quiet_piece p0 cur EmptyString Q). now left. }
    cbn [splitFrom]. destruct (execAt true r (lastOf p0 cur) (String c s)) as [rest|] eqn:E.
    + destruct (wb_ends _ well _ _ _ E) as (m & Es & Hm & Hafter).
      destruct m as [|c' m]; [congruence|]. simpl in Es. injection Es as <- ->.
      assert (String.length (String c (m ++ rest)) - String.length rest
              = S (String.length m)) as ->.
      { change (String.length (String c (m ++ rest)))
          with (S (String.length (m ++ rest))).
        rewrite string_length_app. lia. }
      constructor.
      * apply (quiet_piece p0 cur _ Q). right. unfold matchesAt. now rewrite E.
      * rewrite splitFrom_skip.
        apply (IH rest ltac:(simpl in Hn; rewrite string_length_app in Hn; lia)
                 (lastOf (Some c) m) EmptyString).
        split; [|exact Hafter].
        intros a b Eab Hb. destruct a; destruct b; simpl in Eab; congruence.
    + rewrite <- (lastOf_snoc cur c p0).
      apply IH; [simpl in Hn; lia|]. now apply quiet_snoc.
Qed.

Lemma split_pieces (s piece : string) :
  In piece (split true r s) -> test true r (trim piece) = false.
Proof.
  unfold split, test. destruct s as [|c s].
  - destruct (execAt true r None EmptyString) eqn:E; [intros []|].
    intros [<- | []]. simpl. now rewrite E.
  - intros H.
    pose proof (splitFrom_pieces _ (String c s) (le_n _) None EmptyString) as P.
    rewrite Forall_forall in P. apply P; [|exact H].
    split; [|discriminate].
    intros a b Eab Hb. destruct a; destruct b; simpl in Eab; congruence.
Qed.

End Pieces.

(** X28: no instruction holds a separator, so that each instruction is
    the only instruction of itself. *)
Theorem instructions_are_atomic (input i : string) :
  In i (splitInstructions input) ->
  test true separators i = false /\ splitInstructions i = [i].
Proof.
  rewrite splitInstructions_filter. intros H. apply filter_In in H.
  destruct H as [Hin Hlong]. apply longEnough_spec in Hlong.
  unfold fragments in Hin. apply in_map_iff in Hin.
  destruct Hin as (piece & <- & Hpiece).
  pose proof (split_pieces _ separators_wellBehaved _ _ Hpiece) as Hno.
  split; [exact Hno|].
  rewrite <- (trim_idem piece) at 2. apply splitInstructions_whole; [exact Hno|].
  now rewrite trim_idem.
Qed.

Lemma instructions_are_atomic_witness :
  In "explain the code" (splitInstructions "Summarize this page, and then explain the code.")
  /\ test true separators "explain the code" = false
  /\ splitInstructions "explain the code" = ["explain the code"].
Proof.
  split; [vm_compute; tauto|].
  apply (instructions_are_atomic "Summarize this page, and then explain the code.").
  vm_compute. tauto.
Defined.

(** X29: no related action holds a separator of the related actions, so
    that each related action is the only related action of itself. *)
Theorem related_actions_are_atomic (instruction a : string) :
  In a (splitRelatedActions instruction) ->
  test true relatedSeparators a = false /\ splitRelatedActions a = [a].
Proof.
  unfold splitRelatedActions at 1. intros H. apply filter_In in H.
  destruct H as [Hin Hlen]. apply in_map_iff in Hin.
  destruct Hin as (piece & <- & Hpiece).
  pose proof (split_pieces _ relatedSeparators_wellBehaved _ _ Hpiece) as Hno.
  split; [exact Hno|].
  unfold splitRelatedActions. rewrite (split_whole _ _ _ Hno). simpl.
  rewrite trim_idem. now rewrite Hlen.
Qed.

Lemma related_actions_are_atomic_witness :
  In "run the tests" (splitRelatedActions "fix the bug; run the tests")
  /\ test true relatedSeparators "run the tests" = false
  /\ splitRelatedActions "run the tests" = ["run the tests"].
Proof.
  split; [vm_compute; tauto|].
  apply (related_actions_are_atomic "fix the bug; run the tests").
  vm_compute. tauto.
Defined.

(** ** Instances *)

Lemma instructions_are_trimmed_and_long_witness :
  In "refactor auth" (splitInstructions docGoal)
  /\ trim "refactor auth" = "refactor auth"
  /\ 3 < String.length "refactor auth".
Proof.
  assert (In "refactor auth" (splitInstructions docGoal)) as H by (vm_compute; tauto).
  split; [exact H|].
  exact (instructions_are_trimmed_and_long docGoal "refactor auth" H).
Defined.

Lemma instructions_hold_no_punctuation_witness :
  In "refactor auth" (splitInstructions docGoal)
  /\ In "r"%char (list_ascii_of_string "refactor auth")
  /\ ~ In "r"%char ["."; ";"; ","; "010"; "013"]%char.
Proof.
  assert (In "refactor auth" (splitInstructions docGoal)) as H by (vm_compute; tauto).
  assert (In "r"%char (list_ascii_of_string "refactor auth")) as Hc by (vm_compute; tauto).
  split; [exact H | split; [exact Hc|]].
  exact (instructions_hold_no_punctuation docGoal "refactor auth" "r" H Hc).
Defined.

Lemma related_actions_are_trimmed_witness :
  In "document" (splitRelatedActions "optimize and document; ")
  /\ "document" <> EmptyString
  /\ trim "document" = "document"
  /\ ~ In ";"%char (list_ascii_of_string "document").
Proof.
  assert (In "document" (splitRelatedActions "optimize and document; ")) as H
    by (vm_compute; tauto).
  split; [exact H|].
  exact (related_actions_are_trimmed "optimize and document; " "document" H).
Defined.

Lemma assigned_instruction_origin_witness :
  let a := mkAssignment "auth.py" "refactor auth" code_assistant in
  In a (assign docPages ["API Docs"; "auth.py"] (splitInstructions docGoal))
  /\ instruction a <> EmptyString
  /\ (In (instruction a) (splitInstructions docGoal)
      \/ instruction a = "Analyze this content").
Proof.
  intros a.
  assert (In a (assign docPages ["API Docs"; "auth.py"] (splitInstructions docGoal))) as H
    by (vm_compute; tauto).
  split; [exact H|].
  exact (assigned_instruction_origin docPages ["API Docs"; "auth.py"]
           (splitInstructions docGoal) a H).
Defined.

Lemma assigned_tool_by_tier_witness :
  let a := mkAssignment "auth.py" "refactor auth" code_assistant in
  In (a, ContentType) (route docPages ["API Docs"; "auth.py"] (splitInstructions docGoal))
  /\ tool a = tierTool ContentType (pageTypeOf docPages (page a)) (instruction a).
Proof.
  intros a.
  assert (In (a, ContentType)
             (route docPages ["API Docs"; "auth.py"] (splitInstructions docGoal))) as H
    by (vm_compute; tauto).
  split; [exact H|].
  exact (assigned_tool_by_tier docPages ["API Docs"; "auth.py"]
           (splitInstructions docGoal) a ContentType H).
Defined.

Lemma explicit_mention_wins_witness :
  nth_error ["Home"; "API Docs"] 1 = Some "API Docs"
  /\ Forall (fun j => mentions j "API Docs" = false) ["transcribe the talk"]
  /\ mentions "Summarize API Docs" "API Docs" = true
  /\ "Summarize API Docs" <> EmptyString
  /\ nth_error (route docPages ["Home"; "API Docs"]
                  (["transcribe the talk"] ++ "Summarize API Docs" :: [])) 1
     = Some (mkAssignment "API Docs" "Summarize API Docs"
               (priorityTool (pageTypeOf docPages "API Docs")
                  (inferTools "Summarize API Docs")),
             ExplicitMention).
Proof.
  assert (Forall (fun j => mentions j "API Docs" = false) ["transcribe the talk"]) as H2
    by (repeat constructor).
  assert ("Summarize API Docs" <> EmptyString) as H4 by discriminate.
  split; [reflexivity | split; [exact H2 | split; [reflexivity | split; [exact H4|]]]].
  exact (explicit_mention_wins docPages ["Home"; "API Docs"] ["transcribe the talk"] []
           "Summarize API Docs" "API Docs" 1 eq_refl H2 eq_refl H4).
Defined.

Lemma unmentioned_pages_take_instructions_in_order_witness :
  let pages := ["Home"; "Guide"; "FAQ"] in
  let instructions := ["transcribe the talk"; "describe the chart"] in
  NoDup instructions
  /\ Forall (fun i => i <> EmptyString) instructions
  /\ (forall i p, In i instructions -> In p pages -> mentions i p = false)
  /\ route [mkPage "Guide" "image"] pages instructions
     = inOrder [mkPage "Guide" "image"] (defaultInstruction instructions) pages instructions.
Proof.
  intros pages instructions.
  assert (NoDup instructions) as H1.
  { repeat constructor; simpl; intuition discriminate. }
  assert (Forall (fun i => i <> EmptyString) instructions) as H2.
  { repeat constructor; discriminate. }
  assert (forall i p, In i instructions -> In p pages -> mentions i p = false) as H3.
  { intros i p [<- | [<- | []]] [<- | [<- | [<- | []]]]; reflexivity. }
  split; [exact H1 | split; [exact H2 | split; [exact H3|]]].
  exact (unmentioned_pages_take_instructions_in_order
           [mkPage "Guide" "image"] pages instructions H1 H2 H3).
Defined.

Lemma special_tool_only_when_first_inferred_witness :
  let a := mkAssignment "Release 1" "what changed" impact_analyzer in
  In a (assign [] ["Release 1"; "Release 2"] ["what changed"])
  /\ (tool a = impact_analyzer ->
      inferTools (instruction a) = [impact_analyzer]
      \/ inferTools (instruction a) = [impact_analyzer; test_support])
  /\ (tool a = test_support -> inferTools (instruction a) = [test_support]).
Proof.
  intros a.
  assert (In a (assign [] ["Release 1"; "Release 2"] ["what changed"])) as H
    by (vm_compute; tauto).
  split; [exact H|].
  exact (special_tool_only_when_first_inferred [] ["Release 1"; "Release 2"]
           ["what changed"] a H).
Defined.

Lemma successful_run_shape_witness :
  let r := handleGoalSubmit plainExternals steadyApi twoReleases blankView in
  error (fst r) = EmptyString
  /\ validated twoReleases
  /\ Forall (fun e => resolved e = true) (snd r)
  /\ Forall (fun p => inherited p = false) (selectedPages twoReleases)
  /\ map tab_id (outputTabs (fst r)) = ["per-page-results"; "reasoning"; "selected-pages"]
  /\ activeTab (fst r) = "per-page-results"
  /\ history (fst r)
     = mkEntry (goal twoReleases) (outputTabs (fst r))
               (selectedSpace twoReleases) (selectedPages twoReleases)
       :: history blankView.
Proof.
  intros r.
  assert (error (fst r) = EmptyString) as H by (vm_compute; reflexivity).
  split; [exact H|].
  exact (successful_run_shape plainExternals steadyApi twoReleases blankView H).
Defined.

Lemma failed_run_keeps_history_witness :
  let i := mkInputs "Summarize the onboarding notes" "DOCS" ["Home"; "Guide"] [] in
  let r := handleGoalSubmit plainExternals flakyApi i pastView in
  error (fst r) <> EmptyString /\ history (fst r) = history pastView.
Proof.
  intros i r.
  assert (error (fst r) <> EmptyString) as H by (vm_compute; discriminate).
  split; [exact H|].
  exact (failed_run_keeps_history plainExternals flakyApi i pastView H).
Defined.

Lemma run_fails_iff_witness :
  let i := mkInputs "Summarize the notes" "DOCS" ["Home"; "constructor"] [] in
  let r := handleGoalSubmit plainExternals steadyApi i blankView in
  validated i
  /\ (error (fst r) = "An error occurred during orchestration."
      <-> Exists (fun e => resolved e = false) (snd r)
          \/ Exists (fun p => inherited p = true) (selectedPages i)).
Proof.
  intros i r.
  assert (validated i) as H by (repeat split; discriminate).
  split; [exact H|].
  exact (run_fails_iff plainExternals steadyApi i blankView H).
Defined.

Lemma follow_up_after_run_is_dropped_witness :
  let r := fst (handleGoalSubmit plainExternals steadyApi twoReleases blankView) in
  validated twoReleases
  /\ trim "And the risks?" <> EmptyString
  /\ outputTabs (fst (fst (handleFollowUp steadyApi twoReleases "And the risks?" r)))
     = outputTabs r
  /\ map call (snd (handleFollowUp steadyApi twoReleases "And the risks?" r))
     = [Search (selectedSpace twoReleases) (selectedPages twoReleases) "And the risks?"].
Proof.
  intros r.
  assert (validated twoReleases) as H1 by (repeat split; discriminate).
  assert (trim "And the risks?" <> EmptyString) as H2 by discriminate.
  split; [exact H1 | split; [exact H2|]].
  exact (follow_up_after_run_is_dropped plainExternals steadyApi twoReleases blankView
           "And the risks?" H1 H2).
Defined.

Lemma go_to_latest_loads_newest_witness :
  let r := goToLatest ["1730500000000"] twoReleases pastView in
  history pastView = pastRun :: []
  /\ goal (fst r) = h_goal pastRun
  /\ selectedSpace (fst r) = h_selectedSpace pastRun
  /\ selectedPages (fst r) = h_selectedPages pastRun
  /\ outputTabs (snd r) = h_outputTabs pastRun
  /\ currentHistoryId (snd r) = Some "1730500000000"
  /\ history (snd r) = history pastView.
Proof.
  intros r. split; [reflexivity|].
  exact (go_to_latest_loads_newest "1730500000000" [] pastRun twoReleases pastView []
           eq_refl).
Defined.

Lemma unknown_history_id_changes_nothing_witness :
  ~ In "42" ["1730500000000"]
  /\ loadHistoryEntry ["1730500000000"] "42" twoReleases pastView = (twoReleases, pastView).
Proof.
  assert (~ In "42" ["1730500000000"]) as H by (simpl; intuition discriminate).
  split; [exact H|].
  exact (unknown_history_id_changes_nothing ["1730500000000"] "42" twoReleases pastView H).
Defined.

Lemma toggle_agrees_with_sync_witness :
  let s := mkSelection ["Home"; "Guide"] ["Home"] false in
  listed s <> []
  /\ syncSelectAll (toggleSelectAllPages s) = toggleSelectAllPages s.
Proof.
  intros s. assert (listed s <> []) as H by discriminate.
  split; [exact H|]. exact (toggle_agrees_with_sync s H).
Defined.

Lemma check_then_uncheck_witness :
  let s := mkSelection ["Home"; "Guide"] ["Home"] false in
  ~ In "Guide" (chosen s)
  /\ checkPage "Guide" false (checkPage "Guide" true s) = s
  /\ forall t, ~ In "Guide" (chosen (checkPage "Guide" false t)).
Proof.
  intros s. assert (~ In "Guide" (chosen s)) as H by (simpl; intuition discriminate).
  split; [exact H|]. exact (check_then_uncheck "Guide" s H).
Defined.

Lemma search_queries_are_instructions_witness :
  let r := handleGoalSubmit plainExternals steadyApi twoReleases blankView in
  let e := mkEvent (Search "DOCS" ["Release 2"] "show the diff") true in
  In e (snd r)
  /\ call e = Search "DOCS" ["Release 2"] "show the diff"
  /\ (exists p, ["Release 2"] = [p] /\ In p (selectedPages twoReleases))
  /\ (In "show the diff" (splitInstructions (goal twoReleases))
      \/ "show the diff" = "Analyze this content").
Proof.
  intros r e.
  assert (In e (snd r)) as H by (vm_compute; tauto).
  split; [exact H | split; [reflexivity|]].
  exact (search_queries_are_instructions plainExternals steadyApi twoReleases blankView
           e "DOCS" ["Release 2"] "show the diff" H eq_refl).
Defined.

Lemma image_page_requests_every_image_witness :
  let a := mkAssignment "Gallery" "describe the chart" image_insights in
  tool a = image_insights
  /\ getImages unit steadyApi [] "DOCS" (page a) = Some ["a.png"; "b.png"]
  /\ map call (snd (dispatch plainExternals steadyApi "DOCS" a (mkAudit [] [] []) []))
     = map call []
       ++ GetImages "DOCS" (page a) :: map (ImageSummary "DOCS" (page a)) ["a.png"; "b.png"].
Proof.
  intros a. split; [reflexivity | split; [reflexivity|]].
  exact (image_page_requests_every_image plainExternals steadyApi "DOCS" a
           (mkAudit [] [] []) [] ["a.png"; "b.png"] eq_refl eq_refl).
Defined.

Lemma processed_code_is_never_reported_witness :
  let a := mkAssignment "auth.py" "refactor auth" code_assistant in
  match dispatch plainExternals steadyApi "DOCS" a (mkAudit [] [] []) [] with
  | (Some (r, _), _) =>
      tool a = code_assistant
      /\ Forall (fun out => prefix "Processed Code:" out = false) (outputs r)
      /\ List.length (outputs r) <= 3
  | (None, _) => False
  end.
Proof.
  intros a.
  destruct (dispatch plainExternals steadyApi "DOCS" a (mkAudit [] [] []) [])
    as [[[r audit']|] events'] eqn:D.
  - split; [reflexivity|].
    exact (processed_code_is_never_reported plainExternals steadyApi "DOCS" a
             (mkAudit [] [] []) audit' [] events' r eq_refl D).
  - vm_compute in D. discriminate D.
Defined.
